(** * Target-independent code generation pass configuration

    A shallow embedding of the pass-pipeline builder of [Passes.cpp]
    (the LLVM [TargetPassConfig] bundled in [sec_region.h]): pass
    substitution, command-line overrides, the StartAfter/StopAfter gate,
    inserted passes, register-allocator selection and the two register
    allocation paths.

    Conventions.  An [AnalysisID] is a nullable pointer to a pass identity:
    [None] is the null identity [0].  The pass manager [PM] is the list of
    passes handed to [PM->add], oldest first.  Code that can abort
    ([report_fatal_error], [llvm_unreachable], a failed [assert]) returns
    in the [result] type; a member function of [TargetPassConfig] is a
    state transformer over the configuration object. *)

From stdpp Require Import base option list gmap strings.

Local Open Scope string_scope.
Local Open Scope list_scope.

(** ** Pass identities *)

(** Every identity named in the file, the identities of the passes that the
    file creates through factory functions, and [OtherPassID n] for any
    further registered or target-specific identity.  Distinct constructors
    are distinct addresses. *)
Inductive PassKind : Type :=
  | PostRASchedulerID
  | BranchFolderPassID
  | TailDuplicateID
  | EarlyTailDuplicateID          (* TargetPassConfig::EarlyTailDuplicateID *)
  | MachineBlockPlacementID
  | CodePlacementOptID
  | StackSlotColoringID
  | DeadMachineInstructionElimID
  | EarlyIfConverterID
  | MachineLICMID
  | MachineCSEID
  | MachineSchedulerID
  | PostRAMachineLICMID           (* TargetPassConfig::PostRAMachineLICMID *)
  | MachineSinkingID
  | MachineCopyPropagationID
  | ExpandISelPseudosID
  | LocalStackSlotAllocationID
  | PrologEpilogCodeInserterID
  | ExpandPostRAPseudosID
  | GCMachineCodeAnalysisID
  | OptimizePHIsID
  | StackColoringID
  | PeepholeOptimizerID
  | PHIEliminationID
  | TwoAddressInstructionPassID
  | ProcessImplicitDefsID
  | LiveVariablesID
  | MachineLoopInfoID
  | LiveIntervalsID
  | StrongPHIEliminationID
  | RegisterCoalescerID
  | VirtRegRewriterID
  | MachineBlockPlacementStatsID
  | MachineFunctionPrinterPassID  (* createMachineFunctionPrinterPass *)
  | MachineVerifierPassID         (* createMachineVerifierPass *)
  | RAFastID                      (* createFastRegisterAllocator *)
  | RAGreedyID                    (* createGreedyRegisterAllocator *)
  | RABasicID                     (* createBasicRegisterAllocator *)
  | OtherPassID (n : positive).

(** [AnalysisID]: a nullable pointer to a pass identity. *)
Abbreviation AnalysisID := (option PassKind) (only parsing).

#[global] Instance PassKind_eq_dec : EqDecision PassKind.
Proof. solve_decision. Defined.

Definition PassKind_code (k : PassKind) : nat + positive :=
  match k with
  | PostRASchedulerID => inl 0
  | BranchFolderPassID => inl 1
  | TailDuplicateID => inl 2
  | EarlyTailDuplicateID => inl 3
  | MachineBlockPlacementID => inl 4
  | CodePlacementOptID => inl 5
  | StackSlotColoringID => inl 6
  | DeadMachineInstructionElimID => inl 7
  | EarlyIfConverterID => inl 8
  | MachineLICMID => inl 9
  | MachineCSEID => inl 10
  | MachineSchedulerID => inl 11
  | PostRAMachineLICMID => inl 12
  | MachineSinkingID => inl 13
  | MachineCopyPropagationID => inl 14
  | ExpandISelPseudosID => inl 15
  | LocalStackSlotAllocationID => inl 16
  | PrologEpilogCodeInserterID => inl 17
  | ExpandPostRAPseudosID => inl 18
  | GCMachineCodeAnalysisID => inl 19
  | OptimizePHIsID => inl 20
  | StackColoringID => inl 21
  | PeepholeOptimizerID => inl 22
  | PHIEliminationID => inl 23
  | TwoAddressInstructionPassID => inl 24
  | ProcessImplicitDefsID => inl 25
  | LiveVariablesID => inl 26
  | MachineLoopInfoID => inl 27
  | LiveIntervalsID => inl 28
  | StrongPHIEliminationID => inl 29
  | RegisterCoalescerID => inl 30
  | VirtRegRewriterID => inl 31
  | MachineBlockPlacementStatsID => inl 32
  | MachineFunctionPrinterPassID => inl 33
  | MachineVerifierPassID => inl 34
  | RAFastID => inl 35
  | RAGreedyID => inl 36
  | RABasicID => inl 37
  | OtherPassID n => inr n
  end.

Definition PassKind_decode (x : nat + positive) : PassKind :=
  match x with
  | inl 0 => PostRASchedulerID
  | inl 1 => BranchFolderPassID
  | inl 2 => TailDuplicateID
  | inl 3 => EarlyTailDuplicateID
  | inl 4 => MachineBlockPlacementID
  | inl 5 => CodePlacementOptID
  | inl 6 => StackSlotColoringID
  | inl 7 => DeadMachineInstructionElimID
  | inl 8 => EarlyIfConverterID
  | inl 9 => MachineLICMID
  | inl 10 => MachineCSEID
  | inl 11 => MachineSchedulerID
  | inl 12 => PostRAMachineLICMID
  | inl 13 => MachineSinkingID
  | inl 14 => MachineCopyPropagationID
  | inl 15 => ExpandISelPseudosID
  | inl 16 => LocalStackSlotAllocationID
  | inl 17 => PrologEpilogCodeInserterID
  | inl 18 => ExpandPostRAPseudosID
  | inl 19 => GCMachineCodeAnalysisID
  | inl 20 => OptimizePHIsID
  | inl 21 => StackColoringID
  | inl 22 => PeepholeOptimizerID
  | inl 23 => PHIEliminationID
  | inl 24 => TwoAddressInstructionPassID
  | inl 25 => ProcessImplicitDefsID
  | inl 26 => LiveVariablesID
  | inl 27 => MachineLoopInfoID
  | inl 28 => LiveIntervalsID
  | inl 29 => StrongPHIEliminationID
  | inl 30 => RegisterCoalescerID
  | inl 31 => VirtRegRewriterID
  | inl 32 => MachineBlockPlacementStatsID
  | inl 33 => MachineFunctionPrinterPassID
  | inl 34 => MachineVerifierPassID
  | inl 35 => RAFastID
  | inl 36 => RAGreedyID
  | inl _ => RABasicID
  | inr n => OtherPassID n
  end.

#[global] Instance PassKind_countable : Countable PassKind.
Proof.
  refine (inj_countable' PassKind_code PassKind_decode _).
  intros []; reflexivity.
Defined.

(** ** Passes, failures, command-line options *)

(** A pass object.  [getPassID] is what [P->getPassID()] returns; [Banner]
    is the text given to a printer or verifier pass (empty otherwise). *)
Record Pass : Type := mkPass { getPassID : PassKind; Banner : string }.

#[global] Instance Pass_eq_dec : EqDecision Pass.
Proof. solve_decision. Defined.

(** A nullable [FunctionPass*]. *)
Definition FunctionPass : Type := option Pass.

Inductive Failure : Type :=
  | FatalError (msg : string)        (* report_fatal_error *)
  | Unreachable (msg : string)       (* llvm_unreachable *)
  | AssertionFailed (msg : string)   (* assert *)
  | NullDereference.                 (* method call through a null Pass* *)

Inductive result (A : Type) : Type :=
  | Ok (a : A)
  | Err (e : Failure).
Arguments Ok {A} a.
Arguments Err {A} e.

(** [cl::boolOrDefault] *)
Inductive boolOrDefault : Type := BOU_UNSET | BOU_TRUE | BOU_FALSE.

(** [CodeGenOpt::Level] *)
Inductive CodeGenOptLevel : Type := OptNone | OptLess | OptDefault | OptAggressive.

#[global] Instance CodeGenOptLevel_eq_dec : EqDecision CodeGenOptLevel.
Proof. solve_decision. Defined.

(** [RegisterRegAlloc::FunctionPassCtor]: the allocator factories that can
    be registered, among them the dummy [useDefaultRegisterAllocator]. *)
Inductive FunctionPassCtor : Type :=
  | useDefaultRegisterAllocator
  | createFastRegisterAllocator
  | createGreedyRegisterAllocator
  | createBasicRegisterAllocator
  | createTargetAllocator (n : positive).

#[global] Instance FunctionPassCtor_eq_dec : EqDecision FunctionPassCtor.
Proof. solve_decision. Defined.

(** Calling a factory.  The dummy returns [0] (line 589). *)
Definition callCtor (Ctor : FunctionPassCtor) : FunctionPass :=
  match Ctor with
  | useDefaultRegisterAllocator => None
  | createFastRegisterAllocator => Some (mkPass RAFastID "")
  | createGreedyRegisterAllocator => Some (mkPass RAGreedyID "")
  | createBasicRegisterAllocator => Some (mkPass RABasicID "")
  | createTargetAllocator n => Some (mkPass (OtherPassID n) "")
  end.

(** The [cl::opt] globals of the file that bear on the selection of passes. *)
Record Options : Type := mkOptions {
  DisablePostRA : bool;
  DisableBranchFold : bool;
  DisableTailDuplicate : bool;
  DisableEarlyTailDup : bool;
  DisableBlockPlacement : bool;
  EnableBlockPlacementStats : bool;
  DisableCodePlace : bool;
  DisableSSC : bool;
  DisableMachineDCE : bool;
  EnableEarlyIfConversion : bool;
  DisableMachineLICM : bool;
  DisableMachineCSE : bool;
  OptimizeRegAlloc : boolOrDefault;
  EnableMachineSched : boolOrDefault;
  EnableStrongPHIElim : bool;
  DisablePostRAMachineLICM : bool;
  DisableMachineSink : bool;
  DisableCopyProp : bool;
  VerifyMachineCode : bool;
  EarlyLiveIntervals : bool;
  RegAlloc : FunctionPassCtor
}.

(** No option given on the command line ([VerifyMachineCode] is initialised
    from the environment; here the variable is not set). *)
Definition defaultOptions : Options :=
  {| DisablePostRA := false; DisableBranchFold := false;
     DisableTailDuplicate := false; DisableEarlyTailDup := false;
     DisableBlockPlacement := false; EnableBlockPlacementStats := false;
     DisableCodePlace := false; DisableSSC := false;
     DisableMachineDCE := false; EnableEarlyIfConversion := false;
     DisableMachineLICM := false; DisableMachineCSE := false;
     OptimizeRegAlloc := BOU_UNSET; EnableMachineSched := BOU_UNSET;
     EnableStrongPHIElim := false; DisablePostRAMachineLICM := false;
     DisableMachineSink := false; DisableCopyProp := false;
     VerifyMachineCode := false; EarlyLiveIntervals := false;
     RegAlloc := useDefaultRegisterAllocator |}.

(** ** Override rules *)

Definition applyDisable (PassID : AnalysisID) (Override : bool) : AnalysisID :=
  if Override then None else PassID.

Definition applyOverride (TargetID : AnalysisID) (Override : boolOrDefault)
    (StandardID : AnalysisID) : result AnalysisID :=
  match Override with
  | BOU_UNSET => Ok TargetID
  | BOU_TRUE =>
      match TargetID with
      | Some _ => Ok TargetID
      | None =>
          match StandardID with
          | None => Err (FatalError "Target cannot enable pass")
          | Some _ => Ok StandardID
          end
      end
  | BOU_FALSE => Ok None
  end.

Definition overridePass (opts : Options) (StandardID TargetID : AnalysisID)
    : result AnalysisID :=
  if decide (StandardID = Some PostRASchedulerID) then
    Ok (applyDisable TargetID (DisablePostRA opts))
  else if decide (StandardID = Some BranchFolderPassID) then
    Ok (applyDisable TargetID (DisableBranchFold opts))
  else if decide (StandardID = Some TailDuplicateID) then
    Ok (applyDisable TargetID (DisableTailDuplicate opts))
  else if decide (StandardID = Some EarlyTailDuplicateID) then
    Ok (applyDisable TargetID (DisableEarlyTailDup opts))
  else if decide (StandardID = Some MachineBlockPlacementID) then
    Ok (applyDisable TargetID (DisableCodePlace opts))
  else if decide (StandardID = Some CodePlacementOptID) then
    Ok (applyDisable TargetID (DisableCodePlace opts))
  else if decide (StandardID = Some StackSlotColoringID) then
    Ok (applyDisable TargetID (DisableSSC opts))
  else if decide (StandardID = Some DeadMachineInstructionElimID) then
    Ok (applyDisable TargetID (DisableMachineDCE opts))
  else if decide (StandardID = Some EarlyIfConverterID) then
    Ok (applyDisable TargetID (negb (EnableEarlyIfConversion opts)))
  else if decide (StandardID = Some MachineLICMID) then
    Ok (applyDisable TargetID (DisableMachineLICM opts))
  else if decide (StandardID = Some MachineCSEID) then
    Ok (applyDisable TargetID (DisableMachineCSE opts))
  else if decide (StandardID = Some MachineSchedulerID) then
    applyOverride TargetID (EnableMachineSched opts) StandardID
  else if decide (StandardID = Some PostRAMachineLICMID) then
    Ok (applyDisable TargetID (DisablePostRAMachineLICM opts))
  else if decide (StandardID = Some MachineSinkingID) then
    Ok (applyDisable TargetID (DisableMachineSink opts))
  else if decide (StandardID = Some MachineCopyPropagationID) then
    Ok (applyDisable TargetID (DisableCopyProp opts))
  else Ok TargetID.

(** ** The configuration object *)

(** [PassConfigImpl]: the substitution table and the inserted passes. *)
Record PassConfigImpl : Type := mkImpl {
  TargetPasses : gmap AnalysisID AnalysisID;
  InsertedPasses : list (AnalysisID * AnalysisID)
}.

(** The part of [TargetMachine] that the embedded functions consult. *)
Record TargetMachine : Type := mkTM {
  getOptLevel : CodeGenOptLevel;
  shouldPrintMachineCode : bool
}.

(** [TargetPassConfig], with the pass manager it points to. *)
Record TargetPassConfig : Type := mkConfig {
  PM : list Pass;
  StartAfter : AnalysisID;
  StopAfter : AnalysisID;
  Started : bool;
  Stopped : bool;
  TM : TargetMachine;
  Impl : PassConfigImpl;
  Initialized : bool;
  DisableVerify : bool;
  EnableTailMerge : bool
}.

Definition PM_add (P : Pass) (c : TargetPassConfig) : TargetPassConfig :=
  mkConfig (PM c ++ [P]) (StartAfter c) (StopAfter c) (Started c) (Stopped c)
           (TM c) (Impl c) (Initialized c) (DisableVerify c) (EnableTailMerge c).

Definition set_Started (b : bool) (c : TargetPassConfig) : TargetPassConfig :=
  mkConfig (PM c) (StartAfter c) (StopAfter c) b (Stopped c)
           (TM c) (Impl c) (Initialized c) (DisableVerify c) (EnableTailMerge c).

Definition set_Stopped (b : bool) (c : TargetPassConfig) : TargetPassConfig :=
  mkConfig (PM c) (StartAfter c) (StopAfter c) (Started c) b
           (TM c) (Impl c) (Initialized c) (DisableVerify c) (EnableTailMerge c).

Definition set_Impl (i : PassConfigImpl) (c : TargetPassConfig) : TargetPassConfig :=
  mkConfig (PM c) (StartAfter c) (StopAfter c) (Started c) (Stopped c)
           (TM c) i (Initialized c) (DisableVerify c) (EnableTailMerge c).

(** ** Member functions as state transformers *)

Definition M (A : Type) : Type := TargetPassConfig → result (A * TargetPassConfig).

Definition ret {A} (a : A) : M A := λ c, Ok (a, c).

Definition bind {A B} (m : M A) (k : A → M B) : M B :=
  λ c, match m c with
       | Ok (a, c') => k a c'
       | Err e => Err e
       end.

Definition fail {A} (e : Failure) : M A := λ _, Err e.

Definition get : M TargetPassConfig := λ c, Ok (c, c).

Definition modify (f : TargetPassConfig → TargetPassConfig) : M unit :=
  λ c, Ok (tt, f c).

(** Lifting of a computation that can abort but has no state. *)
Definition lift {A} (r : result A) : M A :=
  λ c, match r with Ok a => Ok (a, c) | Err e => Err e end.

Definition when (b : bool) (m : M unit) : M unit := if b then m else ret tt.

Declare Scope config_scope.
Delimit Scope config_scope with config.
Notation "x <- m ;; k" := (bind m (λ x, k))
  (at level 100, m at next level, right associativity) : config_scope.
Notation "m ;; k" := (bind m (λ _, k))
  (at level 100, right associativity) : config_scope.
Local Open Scope config_scope.

(** [Pass::createPass]: the registry is process-wide and filled elsewhere
    ([initializeCodeGen], target initialisation); it is a parameter here.
    An identity that is not registered gives a null pass. *)
Definition PassRegistry : Type := PassKind → bool.

Definition createPass (PR : PassRegistry) (ID : PassKind) : option Pass :=
  if PR ID then Some (mkPass ID "") else None.

Definition createMachineFunctionPrinterPass (Banner : string) : Pass :=
  mkPass MachineFunctionPrinterPassID Banner.

Definition createMachineVerifierPass (Banner : string) : Pass :=
  mkPass MachineVerifierPassID Banner.

(** [TargetPassConfig::insertPass] *)
Definition insertPass (TargetPassID InsertedPassID : AnalysisID) : M unit :=
  if decide (TargetPassID = InsertedPassID)
  then fail (AssertionFailed "Insert a pass after itself!")
  else modify (λ c,
         set_Impl (mkImpl (TargetPasses (Impl c))
                          (InsertedPasses (Impl c) ++ [(TargetPassID, InsertedPassID)])) c).

(** [TargetPassConfig::substitutePass] *)
Definition substitutePass (StandardID TargetID : AnalysisID) : M unit :=
  modify (λ c,
    set_Impl (mkImpl (<[StandardID := TargetID]> (TargetPasses (Impl c)))
                     (InsertedPasses (Impl c))) c).

(** [TargetPassConfig::getPassSubstitution] *)
Definition getPassSubstitution (c : TargetPassConfig) (ID : AnalysisID) : AnalysisID :=
  match TargetPasses (Impl c) !! ID with
  | None => ID
  | Some T => T
  end.

(** [TargetPassConfig::addPass], the overload taking a pass object: the
    gate. *)
Definition addPass_P (P : Pass) : M unit :=
  c <- get;;
  if Initialized c then fail (AssertionFailed "PassConfig is immutable") else
  let PassID : AnalysisID := Some (getPassID P) in
  when (Started c && negb (Stopped c)) (modify (PM_add P));;
  c <- get;;
  when (bool_decide (StopAfter c = PassID)) (modify (set_Stopped true));;
  c <- get;;
  when (bool_decide (StartAfter c = PassID)) (modify (set_Started true));;
  c <- get;;
  if Stopped c && negb (Started c)
  then fail (FatalError "Cannot stop compilation after pass that is not run")
  else ret tt.

(** A nullable pass pointer handed to the gate: [P->getPassID()] on a null
    pointer has no defined behaviour and is reported as a failure. *)
Definition addPass_FP (P : FunctionPass) : M unit :=
  match P with
  | None => fail NullDereference
  | Some P => addPass_P P
  end.

(** Modelled from the spec: [disablePass] is declared in the class header,
    which is not part of the sources; a substitution by the null identity
    suppresses the pass. *)
Definition disablePass (ID : AnalysisID) : M unit := substitutePass ID None.

(** Modelled from the spec: [setStartStopPasses] is declared in the class
    header, which is not part of the sources; [Started] is initially true
    unless a StartAfter boundary is configured. *)
Definition setStartStopPasses (Start Stop : AnalysisID) : M unit :=
  modify (λ c,
    mkConfig (PM c) Start Stop (bool_decide (Start = None)) (Stopped c)
             (TM c) (Impl c) (Initialized c) (DisableVerify c) (EnableTailMerge c)).

(** The member initialisers of the constructor. *)
Definition TargetPassConfig_init (tm : TargetMachine) (pm : list Pass) : TargetPassConfig :=
  {| PM := pm; StartAfter := None; StopAfter := None;
     Started := true; Stopped := false; TM := tm;
     Impl := mkImpl ∅ []; Initialized := false;
     DisableVerify := false; EnableTailMerge := true |}.

(** The body of the constructor. *)
Definition TargetPassConfig_body : M unit :=
  substitutePass (Some EarlyTailDuplicateID) (Some TailDuplicateID);;
  substitutePass (Some PostRAMachineLICMID) (Some MachineLICMID);;
  disablePass (Some EarlyIfConverterID);;
  substitutePass (Some MachineSchedulerID) None.

(** [TargetPassConfig::TargetPassConfig(tm, pm)] *)
Definition new_TargetPassConfig (tm : TargetMachine) (pm : list Pass)
    : result TargetPassConfig :=
  match TargetPassConfig_body (TargetPassConfig_init tm pm) with
  | Ok (_, c) => Ok c
  | Err e => Err e
  end.

(** [TargetPassConfig::createTargetRegisterAllocator], the default of the
    virtual method. *)
Definition createTargetRegisterAllocator (Optimized : bool) : FunctionPass :=
  if Optimized then callCtor createGreedyRegisterAllocator
  else callCtor createFastRegisterAllocator.

(** The virtual methods that the embedded functions call.  A target
    overrides them; the record is the dispatch table of one target. *)
Record TargetHooks : Type := mkHooks {
  hook_createTargetRegisterAllocator : bool → FunctionPass;
  hook_addPreRewrite : M bool;
  hook_addFinalizeRegAlloc : M bool
}.

(** Modelled from the spec: the defaults of [addPreRewrite] and
    [addFinalizeRegAlloc] are in the class header, which is not part of the
    sources; they are empty hook stages, which add nothing and report so. *)
Definition defaultHooks : TargetHooks :=
  {| hook_createTargetRegisterAllocator := createTargetRegisterAllocator;
     hook_addPreRewrite := ret false;
     hook_addFinalizeRegAlloc := ret false |}.

Section Pipeline.

Variable opts : Options.
Variable PR : PassRegistry.
Variable hooks : TargetHooks.

(** The loop of [addPass(AnalysisID)] over [Impl->InsertedPasses]. *)
Fixpoint addInserted (PassID : AnalysisID) (l : list (AnalysisID * AnalysisID))
    : M unit :=
  match l with
  | [] => ret tt
  | It :: l' =>
      (if decide (It.1 = PassID) then
         match It.2 with
         | None => fail (AssertionFailed "Illegal Pass ID!")
         | Some ID =>
             match createPass PR ID with
             | None => fail (AssertionFailed "Pass ID not registered")
             | Some NP => addPass_P NP
             end
         end
       else ret tt);;
      addInserted PassID l'
  end.

(** [TargetPassConfig::addPass(AnalysisID)] *)
Definition addPass_ID (PassID : AnalysisID) : M AnalysisID :=
  c <- get;;
  let TargetID := getPassSubstitution c PassID in
  FinalID <- lift (overridePass opts PassID TargetID);;
  match FinalID with
  | None => ret FinalID
  | Some ID =>
      match createPass PR ID with
      | None => fail (Unreachable "Pass ID not registered")
      | Some P =>
          addPass_P P;;
          c <- get;;
          addInserted PassID (InsertedPasses (Impl c));;
          ret FinalID
      end
  end.

(** [TargetPassConfig::printAndVerify] *)
Definition printAndVerify (Banner : string) : M unit :=
  c <- get;;
  when (shouldPrintMachineCode (TM c))
       (addPass_P (createMachineFunctionPrinterPass Banner));;
  when (VerifyMachineCode opts)
       (addPass_P (createMachineVerifierPass Banner)).

(** [TargetPassConfig::getOptimizeRegAlloc] *)
Definition getOptimizeRegAlloc (c : TargetPassConfig) : bool :=
  match OptimizeRegAlloc opts with
  | BOU_UNSET => bool_decide (getOptLevel (TM c) ≠ OptNone)
  | BOU_TRUE => true
  | BOU_FALSE => false
  end.

(** [TargetPassConfig::createRegAllocPass].  [Default] is the process-wide
    default of [RegisterRegAlloc] ([getDefault]/[setDefault]), null until
    it is first set; the function returns the pass and the new default. *)
Definition createRegAllocPass (Optimized : bool) (Default : option FunctionPassCtor)
    : FunctionPass * option FunctionPassCtor :=
  let '(Ctor, Default) :=
    match Default with
    | None => (RegAlloc opts, Some (RegAlloc opts))
    | Some Ctor => (Ctor, Default)
    end in
  if decide (Ctor ≠ useDefaultRegisterAllocator) then (callCtor Ctor, Default)
  else (hook_createTargetRegisterAllocator hooks Optimized, Default).

(** [TargetPassConfig::addFastRegAlloc] *)
Definition addFastRegAlloc (RegAllocPass : FunctionPass) : M unit :=
  addPass_ID (Some PHIEliminationID);;
  addPass_ID (Some TwoAddressInstructionPassID);;
  addPass_FP RegAllocPass;;
  printAndVerify "After Register Allocation".

(** [TargetPassConfig::addOptimizedRegAlloc] *)
Definition addOptimizedRegAlloc (RegAllocPass : FunctionPass) : M unit :=
  addPass_ID (Some ProcessImplicitDefsID);;
  addPass_ID (Some LiveVariablesID);;
  when (negb (EnableStrongPHIElim opts))
       (addPass_ID (Some MachineLoopInfoID);;
        addPass_ID (Some PHIEliminationID);;
        ret tt);;
  when (EarlyLiveIntervals opts)
       (addPass_ID (Some LiveIntervalsID);; ret tt);;
  addPass_ID (Some TwoAddressInstructionPassID);;
  when (EnableStrongPHIElim opts)
       (addPass_ID (Some StrongPHIEliminationID);; ret tt);;
  addPass_ID (Some RegisterCoalescerID);;
  ID <- addPass_ID (Some MachineSchedulerID);;
  when (bool_decide (ID ≠ None)) (printAndVerify "After Machine Scheduling");;
  addPass_FP RegAllocPass;;
  printAndVerify "After Register Allocation, before rewriter";;
  b <- hook_addPreRewrite hooks;;
  when b (printAndVerify "After pre-rewrite passes");;
  addPass_ID (Some VirtRegRewriterID);;
  printAndVerify "After Virtual Register Rewriter";;
  b <- hook_addFinalizeRegAlloc hooks;;
  when b (printAndVerify "After RegAlloc finalization");;
  addPass_ID (Some StackSlotColoringID);;
  addPass_ID (Some PostRAMachineLICMID);;
  printAndVerify "After StackSlotColoring and postra Machine LICM".

(** The register-allocation step of [addMachinePasses] (lines 492-495):
    the choice between the two paths.  It returns the new process-wide
    allocator default. *)
Definition addMachinePasses_regalloc (Default : option FunctionPassCtor)
    : M (option FunctionPassCtor) :=
  c <- get;;
  if getOptimizeRegAlloc c then
    let '(RA, Default') := createRegAllocPass true Default in
    addOptimizedRegAlloc RA;; ret Default'
  else
    let '(RA, Default') := createRegAllocPass false Default in
    addFastRegAlloc RA;; ret Default'.

End Pipeline.

(** Running a sequence of pass objects through the gate, as consecutive
    calls of the pass-object overload of [addPass]. *)
Fixpoint addPasses (l : list Pass) : M unit :=
  match l with
  | [] => ret tt
  | P :: l' => addPass_P P;; addPasses l'
  end.

(** The inserted identities recorded for an anchor, in insertion order. *)
Definition insertedAfter (PassID : AnalysisID) (l : list (AnalysisID * AnalysisID))
    : list AnalysisID :=
  (filter (λ It, It.1 = PassID) l).*2.

(** The pass that [Pass::createPass] makes for a registered identity. *)
Definition passOf (ID : PassKind) : Pass := mkPass ID "".

(** The bindings of [overridePass] to [applyDisable]: the standard identity
    and the value handed over as [Override]. *)
Definition disableRules (opts : Options) : list (PassKind * bool) :=
  [ (PostRASchedulerID, DisablePostRA opts);
    (BranchFolderPassID, DisableBranchFold opts);
    (TailDuplicateID, DisableTailDuplicate opts);
    (EarlyTailDuplicateID, DisableEarlyTailDup opts);
    (MachineBlockPlacementID, DisableCodePlace opts);
    (CodePlacementOptID, DisableCodePlace opts);
    (StackSlotColoringID, DisableSSC opts);
    (DeadMachineInstructionElimID, DisableMachineDCE opts);
    (EarlyIfConverterID, negb (EnableEarlyIfConversion opts));
    (MachineLICMID, DisableMachineLICM opts);
    (MachineCSEID, DisableMachineCSE opts);
    (PostRAMachineLICMID, DisablePostRAMachineLICM opts);
    (MachineSinkingID, DisableMachineSink opts);
    (MachineCopyPropagationID, DisableCopyProp opts) ].

(** A registry as the constructor leaves it: every identity but the two
    pseudo identities, which stand for other passes, has a factory. *)
Definition codegenRegistry : PassRegistry :=
  λ k, match k with
       | EarlyTailDuplicateID | PostRAMachineLICMID => false
       | _ => true
       end.

Definition stopBeforeStart : Failure :=
  FatalError "Cannot stop compilation after pass that is not run".

(** ** Configurations and path listings used in the statements *)

(** The configuration that the constructor builds. *)
Definition constructed (tm : TargetMachine) (pm : list Pass) : TargetPassConfig :=
  {| PM := pm; StartAfter := None; StopAfter := None;
     Started := true; Stopped := false; TM := tm;
     Impl := mkImpl (<[Some MachineSchedulerID := None]>
                      (<[Some EarlyIfConverterID := None]>
                        (<[Some PostRAMachineLICMID := Some MachineLICMID]>
                          (<[Some EarlyTailDuplicateID := Some TailDuplicateID]> ∅))))
                    [];
     Initialized := false; DisableVerify := false; EnableTailMerge := true |}.

(** An anchor with one inserted pass, MachineSchedulerID, which the
    constructor substitutes by null. *)
Definition insertedSchedulerConfig : TargetPassConfig :=
  set_Impl (mkImpl (TargetPasses (Impl (constructed (mkTM OptDefault false) [])))
                   [(Some (OtherPassID 1), Some MachineSchedulerID)])
           (constructed (mkTM OptDefault false) []).

(** The gate waits for the pass of identity 1, after which identity 2 is
    inserted. *)
Definition waitingConfig : TargetPassConfig :=
  mkConfig [] (Some (OtherPassID 1)) None false false (mkTM OptDefault false)
           (mkImpl ∅ [(Some (OtherPassID 1), Some (OtherPassID 2))])
           false false true.

(** What [printAndVerify] adds when the gate is open. *)
Definition printAndVerifyPasses (opts : Options) (tm : TargetMachine) (Banner : string)
    : list Pass :=
  (if shouldPrintMachineCode tm then [createMachineFunctionPrinterPass Banner] else [])
  ++ (if VerifyMachineCode opts then [createMachineVerifierPass Banner] else []).

(** The fast path, as the specification lists it, followed by the print
    and verify instrumentation. *)
Definition fastPath (opts : Options) (tm : TargetMachine) (RA : Pass) : list Pass :=
  [passOf PHIEliminationID; passOf TwoAddressInstructionPassID; RA]
  ++ printAndVerifyPasses opts tm "After Register Allocation".

(** The optimized path, as the specification lists it, with the scheduler
    present only when it is forced on, with the default (empty) target
    hooks, and with the print and verify instrumentation. *)
Definition optimizedPath (opts : Options) (tm : TargetMachine) (RA : Pass) : list Pass :=
  [passOf ProcessImplicitDefsID; passOf LiveVariablesID]
  ++ (if EnableStrongPHIElim opts then []
      else [passOf MachineLoopInfoID; passOf PHIEliminationID])
  ++ (if EarlyLiveIntervals opts then [passOf LiveIntervalsID] else [])
  ++ [passOf TwoAddressInstructionPassID]
  ++ (if EnableStrongPHIElim opts then [passOf StrongPHIEliminationID] else [])
  ++ [passOf RegisterCoalescerID]
  ++ match EnableMachineSched opts with
     | BOU_TRUE => passOf MachineSchedulerID
                   :: printAndVerifyPasses opts tm "After Machine Scheduling"
     | _ => []
     end
  ++ [RA]
  ++ printAndVerifyPasses opts tm "After Register Allocation, before rewriter"
  ++ [passOf VirtRegRewriterID]
  ++ printAndVerifyPasses opts tm "After Virtual Register Rewriter"
  ++ (if DisableSSC opts then [] else [passOf StackSlotColoringID])
  ++ (if DisablePostRAMachineLICM opts then [] else [passOf MachineLICMID])
  ++ printAndVerifyPasses opts tm "After StackSlotColoring and postra Machine LICM".

(** Every identity but the two pseudo identities has a factory. *)
Definition registryComplete (PR : PassRegistry) : Prop :=
  ∀ k, k ≠ EarlyTailDuplicateID → k ≠ PostRAMachineLICMID → PR k = true.

(** The identities of the allocators that the factories create. *)
Definition isRegAllocID (k : PassKind) : bool :=
  match k with
  | RAFastID | RAGreedyID | RABasicID | OtherPassID _ => true
  | _ => false
  end.

(** A configuration as the constructor leaves it, up to the passes added so
    far: the gate is open with no stop boundary, and the tables are the
    constructor's. *)
Definition Open (tm : TargetMachine) (c : TargetPassConfig) : Prop :=
  Initialized c = false ∧ Started c = true ∧ Stopped c = false
  ∧ StopAfter c = None ∧ TM c = tm ∧ Impl c = Impl (constructed tm []).

(** [appends tm m a l]: on such a configuration, [m] returns [a], appends
    the passes [l] and keeps the configuration such. *)
Definition appends {A} (tm : TargetMachine) (m : M A) (a : A) (l : list Pass) : Prop :=
  ∀ c, Open tm c → ∃ c', m c = Ok (a, c') ∧ PM c' = PM c ++ l ∧ Open tm c'.

(** The register-allocation step of two pipelines built one after the
    other in one process: the second starts from the allocator default
    that the first left.  The result lists the identities scheduled in
    each. *)
Definition twoPipelines (opts : Options) (PR : PassRegistry) (hooks : TargetHooks)
    (tm1 tm2 : TargetMachine) : result (list PassKind * list PassKind) :=
  match addMachinePasses_regalloc opts PR hooks None (constructed tm1 []) with
  | Ok (Default1, c1) =>
      match addMachinePasses_regalloc opts PR hooks Default1 (constructed tm2 []) with
      | Ok (_, c2) => Ok (getPassID <$> PM c1, getPassID <$> PM c2)
      | Err e => Err e
      end
  | Err e => Err e
  end.

(** The identities of the passes in the pass manager after a run. *)
Definition scheduledPasses {A} (r : result (A * TargetPassConfig)) : result (list PassKind) :=
  match r with
  | Ok (_, c) => Ok (getPassID <$> PM c)
  | Err e => Err e
  end.

(** ** The remaining stages of the pipeline *)

(** [ExceptionHandling::ExceptionsType], what
    [TM->getMCAsmInfo()->getExceptionHandlingType()] returns. *)
Inductive ExceptionsType : Type := EH_None | EH_DwarfCFI | EH_SjLj | EH_ARM | EH_Win64.

(** The [cl::opt] globals of the file that bear on the IR stages and on the
    diagnostics. *)
Record StageOptions : Type := mkStageOptions {
  DisableLSR : bool;
  DisableCGP : bool;
  PrintLSR : bool;
  PrintISelInput : bool;
  PrintGCInfo : bool;
  PrintMachineInstrs : string
}.

(** No option given on the command line. *)
Definition defaultStageOptions : StageOptions :=
  {| DisableLSR := false; DisableCGP := false; PrintLSR := false;
     PrintISelInput := false; PrintGCInfo := false;
     PrintMachineInstrs := "option-unspecified" |}.

(** The passes that the factory functions of other files return.  The
    arguments that the file hands over (the target lowering, the target
    machine, the debug stream) are fixed for one target machine; the banner
    of a printer pass is kept. *)
Record PassFactories : Type := mkFactories {
  createTypeBasedAliasAnalysisPass : Pass;
  createBasicAliasAnalysisPass : Pass;
  createVerifierPass : Pass;
  createLoopStrengthReducePass : Pass;
  createPrintFunctionPass : string → Pass;
  createGCLoweringPass : Pass;
  createUnreachableBlockEliminationPass : Pass;
  createSjLjEHPreparePass : Pass;
  createDwarfEHPass : Pass;
  createLowerInvokePass : Pass;
  createCodeGenPreparePass : Pass;
  createStackProtectorPass : Pass;
  createGCInfoPrinter : Pass
}.

(** The further virtual methods that the stages call, each reporting
    whether it added a pass. *)
Record StageHooks : Type := mkStageHooks {
  hook_addPreISel : M bool;
  hook_addPreRegAlloc : M bool;
  hook_addPostRegAlloc : M bool;
  hook_addPreSched2 : M bool;
  hook_addPreEmitPass : M bool
}.

(** Modelled from the spec: the defaults of these methods are in the class
    header, which is not part of the sources; they are empty hook stages. *)
Definition emptyStageHooks : StageHooks :=
  {| hook_addPreISel := ret false;
     hook_addPreRegAlloc := ret false;
     hook_addPostRegAlloc := ret false;
     hook_addPreSched2 := ret false;
     hook_addPreEmitPass := ret false |}.

Definition set_TM (tm : TargetMachine) (c : TargetPassConfig) : TargetPassConfig :=
  mkConfig (PM c) (StartAfter c) (StopAfter c) (Started c) (Stopped c)
           tm (Impl c) (Initialized c) (DisableVerify c) (EnableTailMerge c).

Definition set_DisableVerify (b : bool) (c : TargetPassConfig) : TargetPassConfig :=
  mkConfig (PM c) (StartAfter c) (StopAfter c) (Started c) (Stopped c)
           (TM c) (Impl c) (Initialized c) b (EnableTailMerge c).

Definition set_EnableTailMerge (b : bool) (c : TargetPassConfig) : TargetPassConfig :=
  mkConfig (PM c) (StartAfter c) (StopAfter c) (Started c) (Stopped c)
           (TM c) (Impl c) (Initialized c) (DisableVerify c) b.

(** [TargetPassConfig::setOpt].  The reference [Opt] to a boolean member is
    given by the assignment to that member. *)
Definition setOpt (Opt : bool → TargetPassConfig → TargetPassConfig) (Val : bool)
    : M unit :=
  c <- get;;
  if Initialized c then fail (AssertionFailed "PassConfig is immutable")
  else modify (Opt Val).

Definition newline : string := String (Ascii.ascii_of_nat 10) "".

Definition bannerAfterLSR : string :=
  String.append newline (String.append newline
    (String.append "*** Code after LSR ***" newline)).

Definition bannerISelInput : string :=
  String.append newline (String.append newline
    (String.append "*** Final LLVM Code input to ISel ***" newline)).

Section Stages.

Variable opts : Options.
Variable sopts : StageOptions.
Variable PR : PassRegistry.
Variable F : PassFactories.
Variable hooks : TargetHooks.
Variable shooks : StageHooks.
(** [PassRegistry::getPassInfo] by name, giving the identity of the pass
    that is registered under the name. *)
Variable getPassInfo : string → option PassKind.

(** [TargetPassConfig::addIRPasses] *)
Definition addIRPasses : M unit :=
  addPass_P (createTypeBasedAliasAnalysisPass F);;
  addPass_P (createBasicAliasAnalysisPass F);;
  c <- get;;
  when (negb (DisableVerify c)) (addPass_P (createVerifierPass F));;
  c <- get;;
  when (bool_decide (getOptLevel (TM c) ≠ OptNone) && negb (DisableLSR sopts))
       (addPass_P (createLoopStrengthReducePass F);;
        when (PrintLSR sopts)
             (addPass_P (createPrintFunctionPass F bannerAfterLSR)));;
  addPass_P (createGCLoweringPass F);;
  addPass_P (createUnreachableBlockEliminationPass F).

(** [TargetPassConfig::addPassesToHandleExceptions]; the exception model of
    the target is the argument. *)
Definition addPassesToHandleExceptions (EH : ExceptionsType) : M unit :=
  match EH with
  | EH_SjLj =>
      addPass_P (createSjLjEHPreparePass F);;
      addPass_P (createDwarfEHPass F)
  | EH_DwarfCFI | EH_ARM | EH_Win64 =>
      addPass_P (createDwarfEHPass F)
  | EH_None =>
      addPass_P (createLowerInvokePass F);;
      addPass_P (createUnreachableBlockEliminationPass F)
  end.

(** [TargetPassConfig::addISelPrepare] *)
Definition addISelPrepare : M unit :=
  c <- get;;
  when (bool_decide (getOptLevel (TM c) ≠ OptNone) && negb (DisableCGP sopts))
       (addPass_P (createCodeGenPreparePass F));;
  addPass_P (createStackProtectorPass F);;
  hook_addPreISel shooks;;
  when (PrintISelInput sopts)
       (addPass_P (createPrintFunctionPass F bannerISelInput));;
  c <- get;;
  when (negb (DisableVerify c)) (addPass_P (createVerifierPass F)).

(** [TargetPassConfig::addMachineSSAOptimization] *)
Definition addMachineSSAOptimization : M unit :=
  ID <- addPass_ID opts PR (Some EarlyTailDuplicateID);;
  when (bool_decide (ID ≠ None))
       (printAndVerify opts "After Pre-RegAlloc TailDuplicate");;
  addPass_ID opts PR (Some OptimizePHIsID);;
  addPass_ID opts PR (Some StackColoringID);;
  addPass_ID opts PR (Some LocalStackSlotAllocationID);;
  addPass_ID opts PR (Some DeadMachineInstructionElimID);;
  printAndVerify opts "After codegen DCE pass";;
  addPass_ID opts PR (Some EarlyIfConverterID);;
  addPass_ID opts PR (Some MachineLICMID);;
  addPass_ID opts PR (Some MachineCSEID);;
  addPass_ID opts PR (Some MachineSinkingID);;
  printAndVerify opts "After Machine LICM, CSE and Sinking passes";;
  addPass_ID opts PR (Some PeepholeOptimizerID);;
  printAndVerify opts "After codegen peephole optimization pass".

(** [TargetPassConfig::addMachineLateOptimization] *)
Definition addMachineLateOptimization : M unit :=
  ID <- addPass_ID opts PR (Some BranchFolderPassID);;
  when (bool_decide (ID ≠ None)) (printAndVerify opts "After BranchFolding");;
  ID <- addPass_ID opts PR (Some TailDuplicateID);;
  when (bool_decide (ID ≠ None)) (printAndVerify opts "After TailDuplicate");;
  ID <- addPass_ID opts PR (Some MachineCopyPropagationID);;
  when (bool_decide (ID ≠ None)) (printAndVerify opts "After copy propagation pass").

(** [TargetPassConfig::addBlockPlacement] *)
Definition addBlockPlacement : M unit :=
  PassID <- (if negb (DisableBlockPlacement opts)
             then addPass_ID opts PR (Some MachineBlockPlacementID)
             else addPass_ID opts PR (Some CodePlacementOptID));;
  when (bool_decide (PassID ≠ None))
       (when (EnableBlockPlacementStats opts)
             (addPass_ID opts PR (Some MachineBlockPlacementStatsID);; ret tt);;
        printAndVerify opts "After machine block placement.").

(** The first step of [addMachinePasses] (lines 456-467): the handling of
    the print-machineinstrs option.  [shouldPrintMachineCode] reports the
    [PrintMachineCode] option of the target machine, which the first branch
    sets. *)
Definition addMachinePasses_printMachineInstrs : M unit :=
  if String.eqb (PrintMachineInstrs sopts) "" then
    modify (λ c, set_TM (mkTM (getOptLevel (TM c)) true) c)
  else if negb (String.eqb (PrintMachineInstrs sopts) "option-unspecified") then
    match getPassInfo (PrintMachineInstrs sopts), getPassInfo "print-machineinstrs" with
    | Some TID, Some IID => insertPass (Some TID) (Some IID)
    | _, _ => fail (AssertionFailed "Pass ID not registered!")
    end
  else ret tt.

(** [TargetPassConfig::addMachinePasses].  [Default] is the process-wide
    allocator default, which the register-allocation step may set; the
    function returns the new one. *)
Definition addMachinePasses (Default : option FunctionPassCtor)
    : M (option FunctionPassCtor) :=
  addMachinePasses_printMachineInstrs;;
  printAndVerify opts "After Instruction Selection";;
  ID <- addPass_ID opts PR (Some ExpandISelPseudosID);;
  when (bool_decide (ID ≠ None)) (printAndVerify opts "After ExpandISelPseudos");;
  c <- get;;
  (if bool_decide (getOptLevel (TM c) ≠ OptNone)
   then addMachineSSAOptimization
   else (addPass_ID opts PR (Some LocalStackSlotAllocationID);; ret tt));;
  b <- hook_addPreRegAlloc shooks;;
  when b (printAndVerify opts "After PreRegAlloc passes");;
  Default' <- addMachinePasses_regalloc opts PR hooks Default;;
  b <- hook_addPostRegAlloc shooks;;
  when b (printAndVerify opts "After PostRegAlloc passes");;
  addPass_ID opts PR (Some PrologEpilogCodeInserterID);;
  printAndVerify opts "After PrologEpilogCodeInserter";;
  c <- get;;
  when (bool_decide (getOptLevel (TM c) ≠ OptNone)) addMachineLateOptimization;;
  addPass_ID opts PR (Some ExpandPostRAPseudosID);;
  printAndVerify opts "After ExpandPostRAPseudos";;
  b <- hook_addPreSched2 shooks;;
  when b (printAndVerify opts "After PreSched2 passes");;
  c <- get;;
  when (bool_decide (getOptLevel (TM c) ≠ OptNone))
       (addPass_ID opts PR (Some PostRASchedulerID);;
        printAndVerify opts "After PostRAScheduler");;
  addPass_ID opts PR (Some GCMachineCodeAnalysisID);;
  when (PrintGCInfo sopts) (addPass_P (createGCInfoPrinter F));;
  c <- get;;
  when (bool_decide (getOptLevel (TM c) ≠ OptNone)) addBlockPlacement;;
  b <- hook_addPreEmitPass shooks;;
  when b (printAndVerify opts "After PreEmit passes");;
  ret Default'.

End Stages.

(** ** Notions used in the statements about the gate *)

(** What a call of the gate can never change: the boundaries, the target
    machine, the tables and the options of the configuration. *)
Definition frame (c : TargetPassConfig)
    : AnalysisID * AnalysisID * TargetMachine * PassConfigImpl * bool * bool * bool :=
  (StartAfter c, StopAfter c, TM c, Impl c, Initialized c, DisableVerify c,
   EnableTailMerge c).

(** The passes of [l] up to and including the first one of identity [ID];
    all of [l] when there is none. *)
Fixpoint throughFirst (ID : AnalysisID) (l : list Pass) : list Pass :=
  match l with
  | [] => []
  | P :: l' =>
      P :: (if decide (Some (getPassID P) = ID) then [] else throughFirst ID l')
  end.

(** The passes of [l] that follow the first one of identity [ID]; none when
    there is no such pass. *)
Fixpoint afterFirst (ID : AnalysisID) (l : list Pass) : list Pass :=
  match l with
  | [] => []
  | P :: l' => if decide (Some (getPassID P) = ID) then l' else afterFirst ID l'
  end.

(** The passes of [l] that precede the first one of identity [ID]; all of
    [l] when there is none. *)
Fixpoint beforeFirst (ID : AnalysisID) (l : list Pass) : list Pass :=
  match l with
  | [] => []
  | P :: l' => if decide (Some (getPassID P) = ID) then [] else P :: beforeFirst ID l'
  end.

(** ** Notions used in the statements about resolution and the stages *)

(** The substitution that the constructor installs, as a function. *)
Definition ctorSubstitution (ID : AnalysisID) : AnalysisID :=
  match ID with
  | Some EarlyTailDuplicateID => Some TailDuplicateID
  | Some PostRAMachineLICMID => Some MachineLICMID
  | Some EarlyIfConverterID => None
  | Some MachineSchedulerID => None
  | _ => ID
  end.

(** The part of a configuration that decides which passes are shown to the
    gate: the tables, the target machine and the verification option. *)
Definition static (c : TargetPassConfig) : PassConfigImpl * TargetMachine * bool :=
  (Impl c, TM c, DisableVerify c).

(** [presents S m l r]: on every configuration of static part [S], whatever
    its gate state and pass manager, [m] is the gate run over the passes
    [l], followed by the outcome [r]. *)
Definition presents {A} (S : PassConfigImpl * TargetMachine * bool)
    (m : M A) (l : list Pass) (r : result A) : Prop :=
  ∀ c, static c = S → m c = (addPasses l;; lift r) c.

(** [m] touches the configuration only through the gate. *)
Definition GateOnly {A} (m : M A) : Prop :=
  ∀ S, ∃ l r, presents S m l r.

(** What [addIRPasses] shows to the gate. *)
Definition IRPasses (sopts : StageOptions) (F : PassFactories)
    (level : CodeGenOptLevel) (disableVerify : bool) : list Pass :=
  [createTypeBasedAliasAnalysisPass F; createBasicAliasAnalysisPass F]
  ++ (if disableVerify then [] else [createVerifierPass F])
  ++ (if bool_decide (level ≠ OptNone) && negb (DisableLSR sopts)
      then createLoopStrengthReducePass F
           :: (if PrintLSR sopts then [createPrintFunctionPass F bannerAfterLSR] else [])
      else [])
  ++ [createGCLoweringPass F; createUnreachableBlockEliminationPass F].

(** What [addPassesToHandleExceptions] shows to the gate. *)
Definition exceptionPasses (F : PassFactories) (EH : ExceptionsType) : list Pass :=
  match EH with
  | EH_SjLj => [createSjLjEHPreparePass F; createDwarfEHPass F]
  | EH_DwarfCFI | EH_ARM | EH_Win64 => [createDwarfEHPass F]
  | EH_None => [createLowerInvokePass F; createUnreachableBlockEliminationPass F]
  end.

(** The SSA-form machine optimizations of a fresh configuration. *)
Definition ssaOptimizationPath (opts : Options) (tm : TargetMachine) : list Pass :=
  (if DisableEarlyTailDup opts then []
   else passOf TailDuplicateID
        :: printAndVerifyPasses opts tm "After Pre-RegAlloc TailDuplicate")
  ++ [passOf OptimizePHIsID; passOf StackColoringID; passOf LocalStackSlotAllocationID]
  ++ (if DisableMachineDCE opts then [] else [passOf DeadMachineInstructionElimID])
  ++ printAndVerifyPasses opts tm "After codegen DCE pass"
  ++ (if DisableMachineLICM opts then [] else [passOf MachineLICMID])
  ++ (if DisableMachineCSE opts then [] else [passOf MachineCSEID])
  ++ (if DisableMachineSink opts then [] else [passOf MachineSinkingID])
  ++ printAndVerifyPasses opts tm "After Machine LICM, CSE and Sinking passes"
  ++ [passOf PeepholeOptimizerID]
  ++ printAndVerifyPasses opts tm "After codegen peephole optimization pass".

(** The late machine optimizations of a fresh configuration. *)
Definition lateOptimizationPath (opts : Options) (tm : TargetMachine) : list Pass :=
  (if DisableBranchFold opts then []
   else passOf BranchFolderPassID :: printAndVerifyPasses opts tm "After BranchFolding")
  ++ (if DisableTailDuplicate opts then []
      else passOf TailDuplicateID :: printAndVerifyPasses opts tm "After TailDuplicate")
  ++ (if DisableCopyProp opts then []
      else passOf MachineCopyPropagationID
           :: printAndVerifyPasses opts tm "After copy propagation pass").

(** The block placement of a fresh configuration. *)
Definition blockPlacementPath (opts : Options) (tm : TargetMachine) : list Pass :=
  if DisableCodePlace opts then []
  else (if DisableBlockPlacement opts then passOf CodePlacementOptID
        else passOf MachineBlockPlacementID)
       :: (if EnableBlockPlacementStats opts then [passOf MachineBlockPlacementStatsID]
           else [])
       ++ printAndVerifyPasses opts tm "After machine block placement.".

(** The machine passes of a fresh configuration, with empty target hooks
    and the selected allocator pass [RA]. *)
Definition machinePassesPath (opts : Options) (sopts : StageOptions)
    (F : PassFactories) (tm : TargetMachine) (RA : Pass) : list Pass :=
  let optimizing := bool_decide (getOptLevel tm ≠ OptNone) in
  printAndVerifyPasses opts tm "After Instruction Selection"
  ++ passOf ExpandISelPseudosID
     :: printAndVerifyPasses opts tm "After ExpandISelPseudos"
  ++ (if optimizing then ssaOptimizationPath opts tm
      else [passOf LocalStackSlotAllocationID])
  ++ (if getOptimizeRegAlloc opts (constructed tm []) then optimizedPath opts tm RA
      else fastPath opts tm RA)
  ++ passOf PrologEpilogCodeInserterID
     :: printAndVerifyPasses opts tm "After PrologEpilogCodeInserter"
  ++ (if optimizing then lateOptimizationPath opts tm else [])
  ++ passOf ExpandPostRAPseudosID
     :: printAndVerifyPasses opts tm "After ExpandPostRAPseudos"
  ++ (if optimizing
      then (if DisablePostRA opts then [] else [passOf PostRASchedulerID])
           ++ printAndVerifyPasses opts tm "After PostRAScheduler"
      else [])
  ++ passOf GCMachineCodeAnalysisID
     :: (if PrintGCInfo sopts then [createGCInfoPrinter F] else [])
  ++ (if optimizing then blockPlacementPath opts tm else []).

(** What [addISelPrepare] shows to the gate, when the pre-selection hook
    shows [hookPasses]. *)
Definition ISelPreparePasses (sopts : StageOptions) (F : PassFactories)
    (level : CodeGenOptLevel) (disableVerify : bool) (hookPasses : list Pass)
    : list Pass :=
  (if bool_decide (level ≠ OptNone) && negb (DisableCGP sopts)
   then [createCodeGenPreparePass F] else [])
  ++ [createStackProtectorPass F]
  ++ hookPasses
  ++ (if PrintISelInput sopts then [createPrintFunctionPass F bannerISelInput] else [])
  ++ (if disableVerify then [] else [createVerifierPass F]).

(** Two passes inserted after identity 1, the second of them twice, and
    one inserted after the first of these. *)
Definition insertionOrderConfig : TargetPassConfig :=
  mkConfig [] None None true false (mkTM OptDefault false)
           (mkImpl ∅ [(Some (OtherPassID 1), Some (OtherPassID 2));
                      (Some (OtherPassID 2), Some (OtherPassID 9));
                      (Some (OtherPassID 1), Some (OtherPassID 3));
                      (Some (OtherPassID 1), Some (OtherPassID 3))])
           false false true.

(** The registry of names used below: the printer and PHI elimination. *)
Definition someNames (name : string) : option PassKind :=
  if String.eqb name "print-machineinstrs" then Some MachineFunctionPrinterPassID
  else if String.eqb name "phi-node-elimination" then Some PHIEliminationID
  else None.

(** Factories used below: thirteen passes of identities of their own. *)
Definition someFactories : PassFactories :=
  mkFactories (passOf (OtherPassID 101)) (passOf (OtherPassID 102))
    (passOf (OtherPassID 103)) (passOf (OtherPassID 104))
    (mkPass (OtherPassID 105)) (passOf (OtherPassID 106))
    (passOf (OtherPassID 107)) (passOf (OtherPassID 108))
    (passOf (OtherPassID 109)) (passOf (OtherPassID 110))
    (passOf (OtherPassID 111)) (passOf (OtherPassID 112))
    (passOf (OtherPassID 113)).

(** * Properties *)

(** ** The gate *)

(** One call of the gate, in closed form. *)
Lemma addPass_P_eq (P : Pass) (c : TargetPassConfig) :
  Initialized c = false →
  addPass_P P c =
    let stopped := Stopped c || bool_decide (StopAfter c = Some (getPassID P)) in
    let started := Started c || bool_decide (StartAfter c = Some (getPassID P)) in
    if stopped && negb started then Err stopBeforeStart
    else Ok (tt, mkConfig (if Started c && negb (Stopped c) then PM c ++ [P] else PM c)
                          (StartAfter c) (StopAfter c) started stopped
                          (TM c) (Impl c) false (DisableVerify c) (EnableTailMerge c)).
Proof.
  destruct c as [pm sa so st sp tm im ini dv tme]; simpl; intros ->.
  unfold addPass_P, bind, get, when, modify, ret, fail, PM_add,
    set_Stopped, set_Started; cbn.
  destruct st, sp; cbn;
    destruct (bool_decide (so = Some (getPassID P))); cbn;
    destruct (bool_decide (sa = Some (getPassID P))); reflexivity.
Qed.

Lemma addPass_P_Initialized (P : Pass) (c c' : TargetPassConfig) :
  addPass_P P c = Ok (tt, c') → Initialized c = false ∧ Initialized c' = false.
Proof.
  destruct (Initialized c) eqn:Hi.
  - unfold addPass_P, bind, get. simpl. rewrite Hi. discriminate.
  - rewrite addPass_P_eq by done. simpl.
    case_match; [discriminate|]. intros [= <-]. done.
Qed.

(** C1. Gate windowing: with StartAfter = A and StopAfter = B, and the gate
    waiting for its start boundary, the candidate passes A, X, B, Y leave
    exactly X and B in the pass manager; A is dropped as the start boundary
    and Y is dropped because the gate stopped after B.  The boundaries are
    different passes and X is not the stop boundary. *)
Theorem gate_windowing (c : TargetPassConfig) (A X B Y : Pass) :
  Initialized c = false →
  StartAfter c = Some (getPassID A) →
  StopAfter c = Some (getPassID B) →
  Started c = false →
  Stopped c = false →
  getPassID A ≠ getPassID B →
  getPassID X ≠ getPassID B →
  ∃ c', addPasses [A; X; B; Y] c = Ok (tt, c')
        ∧ PM c' = PM c ++ [X; B]
        ∧ Started c' = true ∧ Stopped c' = true.
Proof.
  intros Hi Hsa Hso Hst Hsp HAB HXB.
  destruct c as [pm sa so st sp tm im ini dv tme]; simpl in *; subst.
  unfold addPasses, bind at 1.
  rewrite addPass_P_eq by done; simpl.
  rewrite (bool_decide_eq_false_2 (Some (getPassID B) = Some (getPassID A)))
    by congruence.
  rewrite bool_decide_eq_true_2 by done. simpl.
  unfold bind at 1. rewrite addPass_P_eq by done; simpl.
  rewrite (bool_decide_eq_false_2 (Some (getPassID B) = Some (getPassID X)))
    by congruence.
  simpl.
  unfold bind at 1. rewrite addPass_P_eq by done; simpl.
  rewrite (bool_decide_eq_true_2 (Some (getPassID B) = Some (getPassID B)))
    by done.
  simpl.
  unfold bind at 1. rewrite addPass_P_eq by done; simpl.
  eexists; split; [reflexivity|]. simpl.
  rewrite <- app_assoc. done.
Qed.

Lemma gate_windowing_witness :
  let c := mkConfig [] (Some (OtherPassID 1)) (Some (OtherPassID 3)) false false
                    (mkTM OptDefault false) (mkImpl ∅ []) false false true in
  ∃ c', addPasses [passOf (OtherPassID 1); passOf (OtherPassID 2);
                   passOf (OtherPassID 3); passOf (OtherPassID 4)] c = Ok (tt, c')
        ∧ PM c' = PM c ++ [passOf (OtherPassID 2); passOf (OtherPassID 3)]
        ∧ Started c' = true ∧ Stopped c' = true.
Proof.
  intros c.
  apply (gate_windowing c (passOf (OtherPassID 1)) (passOf (OtherPassID 2))
           (passOf (OtherPassID 3)) (passOf (OtherPassID 4)));
    simpl; try reflexivity; discriminate.
Defined.

(** Configuring the two boundaries on a fresh configuration gives the
    initial state of the windowing scenario. *)
Lemma setStartStopPasses_window (tm : TargetMachine) (pm : list Pass) (A B : PassKind) :
  ∃ c, setStartStopPasses (Some A) (Some B) (constructed tm pm) = Ok (tt, c)
       ∧ Initialized c = false
       ∧ StartAfter c = Some A ∧ StopAfter c = Some B
       ∧ Started c = false ∧ Stopped c = false
       ∧ PM c = pm.
Proof. eexists. repeat split. Qed.

(** C4. Invalid window: a call of the gate fails with the stop-before-start
    fatal error exactly when, after its two boundary checks, [Stopped]
    holds (it held before, or the pass is the StopAfter boundary) while
    [Started] does not (it did not hold before, and the pass is not the
    StartAfter boundary).  The failure is raised by that very call. *)
Theorem stop_before_start_fatal (c : TargetPassConfig) (P : Pass) :
  Initialized c = false →
  addPass_P P c = Err stopBeforeStart
  ↔ (Stopped c = true ∨ StopAfter c = Some (getPassID P))
    ∧ Started c = false ∧ StartAfter c ≠ Some (getPassID P).
Proof.
  intros Hi. rewrite addPass_P_eq by done. cbn. split.
  - destruct (Stopped c), (Started c); cbn;
      repeat case_bool_decide; cbn; intros Hfail; try discriminate Hfail; auto.
  - intros (Hstop & -> & Hstart).
    rewrite (bool_decide_eq_false_2 _ Hstart).
    destruct Hstop as [-> | ->]; [reflexivity|].
    rewrite bool_decide_eq_true_2 by done.
    rewrite orb_true_r. reflexivity.
Qed.

Lemma stop_before_start_fatal_witness :
  let c := mkConfig [] (Some (OtherPassID 3)) (Some (OtherPassID 1)) false false
                    (mkTM OptDefault false) (mkImpl ∅ []) false false true in
  addPass_P (passOf (OtherPassID 1)) c = Err stopBeforeStart.
Proof.
  intros c.
  apply (stop_before_start_fatal c (passOf (OtherPassID 1))); [reflexivity|].
  split; [right; reflexivity|]. split; [reflexivity|discriminate].
Defined.

(** The scenario of the invalid window: StartAfter = B and StopAfter = A on
    the sequence A, X, B, Y fails at A, whatever follows. *)
Lemma invalid_window_sequence (c : TargetPassConfig) (A B : Pass) (l : list Pass) :
  Initialized c = false →
  StartAfter c = Some (getPassID B) →
  StopAfter c = Some (getPassID A) →
  Started c = false →
  getPassID A ≠ getPassID B →
  addPasses (A :: l) c = Err stopBeforeStart.
Proof.
  intros Hi Hsa Hso Hst HAB. simpl. unfold bind.
  rewrite addPass_P_eq by done. simpl.
  rewrite Hsa, Hso, Hst.
  rewrite bool_decide_eq_true_2 by done.
  rewrite bool_decide_eq_false_2 by congruence.
  rewrite orb_true_r. reflexivity.
Qed.

(** ** Substitution and override resolution *)

Lemma applyDisable_null (Override : bool) : applyDisable None Override = None.
Proof. destruct Override; reflexivity. Qed.

(** A null substitute stays null through every rule but a forced
    tri-state enable. *)
Lemma overridePass_null (opts : Options) (StandardID : AnalysisID) :
  StandardID ≠ Some MachineSchedulerID ∨ EnableMachineSched opts ≠ BOU_TRUE →
  overridePass opts StandardID None = Ok None.
Proof.
  intros Hrule. unfold overridePass.
  repeat (case_decide; [rewrite ?applyDisable_null; try reflexivity|]);
    [|reflexivity].
  destruct Hrule as [Hne | Hflag]; [contradiction|].
  destruct (EnableMachineSched opts); [reflexivity|contradiction|reflexivity].
Qed.

(** C5. Substitution precedence: when the substitution table maps a
    standard identity to null and no override rule forces it back on (the
    only rule that can is the tri-state rule of MachineSchedulerID set to
    true), scheduling the identity returns null and leaves the whole
    configuration as it was: nothing is appended and no inserted pass is
    created or shown to the gate. *)
Theorem substitution_null_suppresses
    (opts : Options) (PR : PassRegistry) (c : TargetPassConfig) (PassID : AnalysisID) :
  TargetPasses (Impl c) !! PassID = Some None →
  PassID ≠ Some MachineSchedulerID ∨ EnableMachineSched opts ≠ BOU_TRUE →
  addPass_ID opts PR PassID c = Ok (None, c).
Proof.
  intros Hsub Hrule.
  unfold addPass_ID, bind, get, lift, getPassSubstitution.
  rewrite Hsub, (overridePass_null _ _ Hrule). reflexivity.
Qed.

Lemma substitution_null_suppresses_witness :
  let c := mkConfig [] None None true false (mkTM OptDefault false)
             (mkImpl (<[Some PeepholeOptimizerID := None]> ∅)
                     [(Some PeepholeOptimizerID, Some (OtherPassID 1))])
             false false true in
  addPass_ID defaultOptions codegenRegistry (Some PeepholeOptimizerID) c = Ok (None, c).
Proof.
  intros c.
  apply (substitution_null_suppresses defaultOptions codegenRegistry c
           (Some PeepholeOptimizerID)).
  - reflexivity.
  - left. discriminate.
Defined.

(** C6. Override precedence: for every identity that [overridePass] binds
    to [applyDisable], a true flag makes the final identity null whatever
    the substitute is, and a false flag lets the substitute through
    unchanged.  The flag is the value handed to [applyDisable]; for
    EarlyIfConverterID that is the negation of the enable option. *)
Theorem disable_rule_precedence
    (opts : Options) (StandardID : PassKind) (flag : bool) (TargetID : AnalysisID) :
  (StandardID, flag) ∈ disableRules opts →
  overridePass opts (Some StandardID) TargetID
  = Ok (if flag then None else TargetID).
Proof.
  unfold disableRules. intros Hin.
  repeat (apply elem_of_cons in Hin as [[= -> ->] | Hin]; [reflexivity|]).
  apply elem_of_nil in Hin. contradiction.
Qed.

Lemma disable_rule_precedence_witness :
  let opts := mkOptions false false false false false false false false false
                false false true BOU_UNSET BOU_UNSET false false false false
                false false useDefaultRegisterAllocator in
  overridePass opts (Some MachineCSEID) (Some (OtherPassID 7)) = Ok None.
Proof.
  intros opts.
  apply (disable_rule_precedence opts MachineCSEID true (Some (OtherPassID 7))).
  unfold disableRules. simpl. set_solver.
Defined.

(** C7. Tri-state enable: an unset flag passes the substitute through; a
    true flag keeps a non-null substitute, falls back to the standard
    identity when the substitute is null, and is fatal when both are null;
    a false flag gives null.  [overridePass] applies this rule to
    MachineSchedulerID, with that identity itself as the fallback. *)
Theorem tri_state_enable
    (opts : Options) (TargetID StandardID : AnalysisID) (T S : PassKind) :
  applyOverride TargetID BOU_UNSET StandardID = Ok TargetID
  ∧ applyOverride (Some T) BOU_TRUE StandardID = Ok (Some T)
  ∧ applyOverride None BOU_TRUE (Some S) = Ok (Some S)
  ∧ applyOverride None BOU_TRUE None = Err (FatalError "Target cannot enable pass")
  ∧ applyOverride TargetID BOU_FALSE StandardID = Ok None
  ∧ overridePass opts (Some MachineSchedulerID) TargetID
    = applyOverride TargetID (EnableMachineSched opts) (Some MachineSchedulerID).
Proof. repeat split. Qed.

(** ** Inserted passes *)

Lemma addPass_P_Impl (P : Pass) (c c' : TargetPassConfig) :
  addPass_P P c = Ok (tt, c') → Impl c' = Impl c.
Proof.
  intros Hrun. destruct (addPass_P_Initialized _ _ _ Hrun) as [Hi _].
  rewrite addPass_P_eq in Hrun by done. cbn in Hrun.
  case_match; [discriminate|]. injection Hrun as <-. reflexivity.
Qed.

(** Scheduling an identity whose resolution is a registered, non-null
    identity: the pass goes to the gate, then the insertion loop runs. *)
Lemma addPass_ID_resolved
    (opts : Options) (PR : PassRegistry) (c : TargetPassConfig)
    (PassID : AnalysisID) (ID : PassKind) :
  overridePass opts PassID (getPassSubstitution c PassID) = Ok (Some ID) →
  PR ID = true →
  addPass_ID opts PR PassID c
  = (addPass_P (passOf ID);;
     addInserted PR PassID (InsertedPasses (Impl c));;
     ret (Some ID)) c.
Proof.
  intros Hres Hreg. unfold addPass_ID, bind at 1 2, get at 1, lift.
  rewrite Hres. unfold createPass. rewrite Hreg.
  unfold bind, get, passOf.
  destruct (addPass_P _ c) as [[[] c1]|e] eqn:Hgate; [|reflexivity].
  rewrite (addPass_P_Impl _ _ _ Hgate). reflexivity.
Qed.

(** The insertion loop hands the recorded identities of the anchor, as
    they are, to the gate. *)
Lemma addInserted_addPasses
    (PR : PassRegistry) (PassID : AnalysisID) (l : list (AnalysisID * AnalysisID)) :
  ∀ (zs : list PassKind) (c : TargetPassConfig),
    insertedAfter PassID l = Some <$> zs →
    Forall (λ z, PR z = true) zs →
    addInserted PR PassID l c = addPasses (passOf <$> zs) c.
Proof.
  unfold insertedAfter.
  induction l as [|[a e] l IH]; intros zs c Hzs Hreg.
  - destruct zs; [reflexivity|discriminate].
  - cbn [addInserted]. rewrite filter_cons in Hzs. cbn [fst snd] in *.
    destruct (decide (a = PassID)) as [->|Hne].
    + destruct zs as [|z zs]; [discriminate|].
      cbn in Hzs. injection Hzs as -> Hzs.
      apply Forall_cons in Hreg as [Hz Hreg].
      unfold createPass. rewrite Hz. cbn [fmap list_fmap addPasses].
      unfold bind. fold (passOf z).
      destruct (addPass_P (passOf z) c) as [[[] c1]|err]; [|reflexivity].
      apply IH; assumption.
    + unfold bind, ret. apply IH; assumption.
Qed.

(** C3, as the code has it.  An inserted pass does not go through
    substitution or override resolution: when the anchor resolves to a
    registered identity, scheduling it is the gate applied to the anchor's
    pass and then to one pass per identity recorded for the anchor, each
    created from the recorded identity itself.  The substitution table and
    the options enter only through the resolution of the anchor. *)
Theorem inserted_passes_go_to_gate_unresolved
    (opts : Options) (PR : PassRegistry) (c : TargetPassConfig)
    (PassID : AnalysisID) (ID : PassKind) (zs : list PassKind) :
  overridePass opts PassID (getPassSubstitution c PassID) = Ok (Some ID) →
  PR ID = true →
  insertedAfter PassID (InsertedPasses (Impl c)) = Some <$> zs →
  Forall (λ z, PR z = true) zs →
  addPass_ID opts PR PassID c
  = (addPasses (passOf ID :: (passOf <$> zs));; ret (Some ID)) c.
Proof.
  intros Hres Hreg Hzs Hregs.
  rewrite (addPass_ID_resolved _ _ _ _ _ Hres Hreg).
  cbn [addPasses]. unfold bind.
  destruct (addPass_P (passOf ID) c) as [[[] c1]|err]; [|reflexivity].
  rewrite (addInserted_addPasses _ _ _ zs c1 Hzs Hregs). reflexivity.
Qed.

Lemma new_TargetPassConfig_eq (tm : TargetMachine) (pm : list Pass) :
  new_TargetPassConfig tm pm = Ok (constructed tm pm).
Proof. reflexivity. Qed.

Lemma inserted_passes_go_to_gate_unresolved_witness :
  addPass_ID defaultOptions codegenRegistry (Some (OtherPassID 1)) insertedSchedulerConfig
  = (addPasses [passOf (OtherPassID 1); passOf MachineSchedulerID];;
     ret (Some (OtherPassID 1))) insertedSchedulerConfig.
Proof.
  apply (inserted_passes_go_to_gate_unresolved defaultOptions codegenRegistry
           insertedSchedulerConfig (Some (OtherPassID 1)) (OtherPassID 1)
           [MachineSchedulerID]).
  - reflexivity.
  - reflexivity.
  - reflexivity.
  - repeat constructor.
Defined.

(** C3 as the specification states it does not hold: resolution maps
    MachineSchedulerID to null, so that scheduling it adds nothing, yet
    inserted after another pass it is appended to the pass manager. *)
Lemma inserted_pass_not_suppressed :
  overridePass defaultOptions (Some MachineSchedulerID)
    (getPassSubstitution insertedSchedulerConfig (Some MachineSchedulerID)) = Ok None
  ∧ scheduledPasses (addPass_ID defaultOptions codegenRegistry (Some MachineSchedulerID)
                       insertedSchedulerConfig)
    = Ok []
  ∧ scheduledPasses (addPass_ID defaultOptions codegenRegistry (Some (OtherPassID 1))
                       insertedSchedulerConfig)
    = Ok [OtherPassID 1; MachineSchedulerID].
Proof. repeat split; vm_compute; reflexivity. Qed.

Lemma insertedAfter_app (PassID : AnalysisID) (l1 l2 : list (AnalysisID * AnalysisID)) :
  insertedAfter PassID (l1 ++ l2) = insertedAfter PassID l1 ++ insertedAfter PassID l2.
Proof. unfold insertedAfter. rewrite filter_app, fmap_app. reflexivity. Qed.

(** C8. Insertion fidelity: in a configuration whose gate is open and that
    records no inserted pass for X yet, after [insertPass X Z] scheduling
    the standard identity X, resolved to X' (by substitution or not),
    appends the pass of X' and right after it the pass of Z.  The anchor
    is compared with the identity that was asked for, not with X'. *)
Theorem insertion_fidelity
    (opts : Options) (PR : PassRegistry) (c : TargetPassConfig) (X X' Z : PassKind) :
  Initialized c = false →
  Started c = true →
  Stopped c = false →
  StopAfter c ≠ Some X' →
  insertedAfter (Some X) (InsertedPasses (Impl c)) = [] →
  X ≠ Z →
  overridePass opts (Some X) (getPassSubstitution c (Some X)) = Ok (Some X') →
  PR X' = true →
  PR Z = true →
  ∃ c', (insertPass (Some X) (Some Z);; addPass_ID opts PR (Some X)) c = Ok (Some X', c')
        ∧ PM c' = PM c ++ [passOf X'; passOf Z].
Proof.
  intros Hi Hst Hsp Hso Hnone HXZ Hres HregX HregZ.
  unfold bind at 1, insertPass.
  rewrite decide_False by congruence. unfold modify.
  set (c1 := set_Impl _ c).
  assert (Hres1 : overridePass opts (Some X) (getPassSubstitution c1 (Some X))
                  = Ok (Some X')) by exact Hres.
  assert (Hins : insertedAfter (Some X) (InsertedPasses (Impl c1)) = Some <$> [Z]).
  { subst c1. cbn [set_Impl Impl InsertedPasses].
    rewrite insertedAfter_app, Hnone. unfold insertedAfter.
    rewrite filter_cons, decide_True by reflexivity. reflexivity. }
  rewrite (addPass_ID_resolved _ _ _ _ _ Hres1 HregX).
  unfold bind at 1. rewrite addPass_P_eq by exact Hi.
  replace (Started c1) with true by (symmetry; exact Hst).
  replace (Stopped c1) with false by (symmetry; exact Hsp).
  replace (StopAfter c1) with (StopAfter c) by reflexivity.
  rewrite (bool_decide_eq_false_2 _ Hso). cbn zeta. cbn [orb andb negb].
  unfold bind at 1.
  rewrite (addInserted_addPasses PR (Some X) _ [Z] _ Hins)
    by (repeat constructor; assumption).
  cbn [addPasses fmap list_fmap]. unfold bind at 1.
  rewrite addPass_P_eq by reflexivity. cbn.
  rewrite andb_false_r.
  eexists. split; [reflexivity|]. cbn.
  rewrite <- app_assoc. reflexivity.
Qed.

Lemma insertion_fidelity_witness :
  let c := constructed (mkTM OptDefault false) [] in
  ∃ c', (insertPass (Some EarlyTailDuplicateID) (Some (OtherPassID 5));;
         addPass_ID defaultOptions codegenRegistry (Some EarlyTailDuplicateID)) c
        = Ok (Some TailDuplicateID, c')
        ∧ PM c' = PM c ++ [passOf TailDuplicateID; passOf (OtherPassID 5)].
Proof.
  intros c.
  apply (insertion_fidelity defaultOptions codegenRegistry c
           EarlyTailDuplicateID TailDuplicateID (OtherPassID 5));
    try reflexivity; discriminate.
Defined.

(** C10. Inserted passes fire although the gate dropped their anchor: when
    the anchor resolves to a registered identity and the gate is not open
    (not yet started, or already stopped), the anchor's pass is shown to
    the gate, which appends nothing for it, and then one pass per identity
    recorded for the anchor is created and shown to the gate in turn, from
    the gate state that the anchor left. *)
Theorem inserted_fire_when_anchor_dropped
    (opts : Options) (PR : PassRegistry) (c c1 : TargetPassConfig)
    (PassID : AnalysisID) (ID : PassKind) (zs : list PassKind) :
  overridePass opts PassID (getPassSubstitution c PassID) = Ok (Some ID) →
  PR ID = true →
  insertedAfter PassID (InsertedPasses (Impl c)) = Some <$> zs →
  Forall (λ z, PR z = true) zs →
  Started c && negb (Stopped c) = false →
  addPass_P (passOf ID) c = Ok (tt, c1) →
  PM c1 = PM c
  ∧ addPass_ID opts PR PassID c = (addPasses (passOf <$> zs);; ret (Some ID)) c1.
Proof.
  intros Hres Hreg Hzs Hregs Hclosed Hgate. split.
  - destruct (addPass_P_Initialized _ _ _ Hgate) as [Hi _].
    rewrite addPass_P_eq in Hgate by exact Hi. cbn in Hgate.
    case_match; [discriminate|]. injection Hgate as <-.
    cbn. rewrite Hclosed. reflexivity.
  - rewrite (addPass_ID_resolved _ _ _ _ _ Hres Hreg).
    unfold bind at 1. rewrite Hgate. unfold bind.
    rewrite (addInserted_addPasses _ _ _ zs c1 Hzs Hregs). reflexivity.
Qed.

Lemma inserted_fire_when_anchor_dropped_witness :
  PM (set_Started true waitingConfig) = PM waitingConfig
  ∧ addPass_ID defaultOptions codegenRegistry (Some (OtherPassID 1)) waitingConfig
    = (addPasses (passOf <$> [OtherPassID 2]);; ret (Some (OtherPassID 1)))
        (set_Started true waitingConfig).
Proof.
  apply (inserted_fire_when_anchor_dropped defaultOptions codegenRegistry
           waitingConfig (set_Started true waitingConfig)
           (Some (OtherPassID 1)) (OtherPassID 1) [OtherPassID 2]).
  - reflexivity.
  - reflexivity.
  - reflexivity.
  - repeat constructor.
  - reflexivity.
  - reflexivity.
Defined.

(** In that configuration the anchor is dropped as the start boundary and
    the inserted pass is the only one appended. *)
Example inserted_after_start_boundary :
  scheduledPasses (addPass_ID defaultOptions codegenRegistry (Some (OtherPassID 1))
                     waitingConfig)
  = Ok [OtherPassID 2].
Proof. vm_compute. reflexivity. Qed.

(** ** Register-allocator selection *)

(** C2, as the code has it.  What is memoized process-wide is the factory
    chosen on the command line at the first call, which may be the dummy
    that defers to the target.  Two successive calls, whatever the options
    and the target of the second: an explicit choice at the first call
    gives that allocator both times; with the dummy, each call gets what
    its own target hook returns for its own mode. *)
Theorem allocator_default_memoized
    (opts1 opts2 : Options) (hooks1 hooks2 : TargetHooks) (Optimized1 Optimized2 : bool) :
  let r1 := createRegAllocPass opts1 hooks1 Optimized1 None in
  let r2 := createRegAllocPass opts2 hooks2 Optimized2 r1.2 in
  r1.2 = Some (RegAlloc opts1)
  ∧ r2.2 = r1.2
  ∧ (RegAlloc opts1 ≠ useDefaultRegisterAllocator →
     r1.1 = callCtor (RegAlloc opts1) ∧ r2.1 = r1.1)
  ∧ (RegAlloc opts1 = useDefaultRegisterAllocator →
     r1.1 = hook_createTargetRegisterAllocator hooks1 Optimized1
     ∧ r2.1 = hook_createTargetRegisterAllocator hooks2 Optimized2).
Proof.
  unfold createRegAllocPass. cbn.
  destruct (RegAlloc opts1); cbn;
    (split; [reflexivity|]); (split; [reflexivity|]);
    split; intros Hsel; solve [contradiction | discriminate | split; reflexivity].
Qed.

(** C2 as the specification states it does not hold: with no allocator
    chosen on the command line and the default target hook, a first
    pipeline, at level Default, gets the greedy allocator and a second one,
    at level None in the same process, gets the fast allocator. *)
Lemma allocator_kind_differs_across_pipelines :
  let r1 := createRegAllocPass defaultOptions defaultHooks true None in
  let r2 := createRegAllocPass defaultOptions defaultHooks false r1.2 in
  RegAlloc defaultOptions = useDefaultRegisterAllocator
  ∧ getPassID <$> r1.1 = Some RAGreedyID
  ∧ getPassID <$> r2.1 = Some RAFastID
  ∧ getPassID <$> r1.1 ≠ getPassID <$> r2.1
  ∧ twoPipelines defaultOptions codegenRegistry defaultHooks
      (mkTM OptDefault false) (mkTM OptNone false)
    = Ok ([ProcessImplicitDefsID; LiveVariablesID; MachineLoopInfoID;
           PHIEliminationID; TwoAddressInstructionPassID; RegisterCoalescerID;
           RAGreedyID; VirtRegRewriterID; StackSlotColoringID; MachineLICMID],
          [PHIEliminationID; TwoAddressInstructionPassID; RAFastID]).
Proof.
  cbn zeta. repeat split; try (vm_compute; reflexivity). discriminate.
Qed.

(** ** The two register-allocation paths *)

Section RegAllocPaths.

Variable opts : Options.
Variable PR : PassRegistry.
Variable tm : TargetMachine.
Hypothesis PR_complete : registryComplete PR.

Lemma appends_ret {A} (a : A) : appends tm (ret a) a [].
Proof.
  intros c Hc. exists c. rewrite app_nil_r. done.
Qed.

Lemma appends_bind {A B} (m : M A) (k : A → M B) (a : A) (b : B) (l1 l2 : list Pass) :
  appends tm m a l1 → appends tm (k a) b l2 → appends tm (bind m k) b (l1 ++ l2).
Proof.
  intros Hm Hk c Hc.
  destruct (Hm c Hc) as (c1 & Hrun1 & Hpm1 & Hc1).
  destruct (Hk c1 Hc1) as (c2 & Hrun2 & Hpm2 & Hc2).
  exists c2. unfold bind. rewrite Hrun1, Hrun2, Hpm2, Hpm1, app_assoc. done.
Qed.

Lemma appends_when (b : bool) (m : M unit) (l : list Pass) :
  appends tm m tt l → appends tm (when b m) tt (if b then l else []).
Proof. destruct b; [trivial|]. intros _. apply appends_ret. Qed.

Lemma appends_eq {A} (m : M A) (a : A) (l l' : list Pass) :
  appends tm m a l → l = l' → appends tm m a l'.
Proof. intros Hm <-. exact Hm. Qed.

Lemma appends_addPass_P (P : Pass) : appends tm (addPass_P P) tt [P].
Proof.
  intros c (Hi & Hst & Hsp & Hso & Htm & Him).
  rewrite addPass_P_eq by exact Hi. cbn.
  rewrite Hst, Hsp, Hso. cbn.
  eexists. split; [reflexivity|]. cbn. repeat split; assumption.
Qed.

Lemma appends_addPass_ID (PassID r : AnalysisID) :
  overridePass opts PassID (getPassSubstitution (constructed tm []) PassID) = Ok r →
  (∀ ID, r = Some ID → PR ID = true) →
  appends tm (addPass_ID opts PR PassID) r (passOf <$> option_list r).
Proof.
  intros Hres Hreg c Hc.
  assert (Hsub : getPassSubstitution c PassID
                 = getPassSubstitution (constructed tm []) PassID).
  { unfold getPassSubstitution. destruct Hc as (_ & _ & _ & _ & _ & ->). reflexivity. }
  destruct r as [ID|].
  - rewrite (addPass_ID_resolved opts PR c PassID ID) by (rewrite ?Hsub; auto).
    assert (Hnil : InsertedPasses (Impl c) = [])
      by (destruct Hc as (_ & _ & _ & _ & _ & ->); reflexivity).
    rewrite Hnil. cbn [addInserted].
    destruct (appends_addPass_P (passOf ID) c Hc) as (c1 & Hrun & Hpm & Hc1).
    exists c1. unfold bind. rewrite Hrun. done.
  - exists c. unfold addPass_ID, bind, get, lift. rewrite Hsub, Hres.
    cbn. rewrite app_nil_r. done.
Qed.

Lemma appends_printAndVerify (Banner : string) :
  appends tm (printAndVerify opts Banner) tt (printAndVerifyPasses opts tm Banner).
Proof.
  intros c Hc.
  assert (Htm : TM c = tm) by (destruct Hc as (_ & _ & _ & _ & -> & _); reflexivity).
  unfold printAndVerify, bind at 1, get. rewrite Htm.
  exact (appends_bind _ (λ _, _) tt tt _ _
           (appends_when (shouldPrintMachineCode tm) _ _
              (appends_addPass_P (createMachineFunctionPrinterPass Banner)))
           (appends_when (VerifyMachineCode opts) _ _
              (appends_addPass_P (createMachineVerifierPass Banner))) c Hc).
Qed.

Ltac registered PR_complete :=
  intros ? ?; unfold applyDisable in *; repeat case_match; simplify_eq;
  apply PR_complete; discriminate.

Ltac schedule PR_complete r :=
  eapply appends_bind;
  [ apply (appends_addPass_ID _ r);
    [ first [ reflexivity | vm_compute; repeat case_match; reflexivity ]
    | registered PR_complete ]
  | ].

Lemma appends_addFastRegAlloc (RA : Pass) :
  appends tm (addFastRegAlloc opts PR (Some RA)) tt (fastPath opts tm RA).
Proof.
  unfold addFastRegAlloc. eapply appends_eq.
  - schedule PR_complete (Some PHIEliminationID).
    schedule PR_complete (Some TwoAddressInstructionPassID).
    eapply appends_bind; [apply appends_addPass_P|].
    apply appends_printAndVerify.
  - reflexivity.
Qed.

Lemma appends_addOptimizedRegAlloc (RA : Pass) :
  appends tm (addOptimizedRegAlloc opts PR defaultHooks (Some RA)) tt
          (optimizedPath opts tm RA).
Proof.
  unfold addOptimizedRegAlloc. eapply appends_eq.
  - schedule PR_complete (Some ProcessImplicitDefsID).
    schedule PR_complete (Some LiveVariablesID).
    eapply appends_bind.
    { apply appends_when.
      schedule PR_complete (Some MachineLoopInfoID).
      schedule PR_complete (Some PHIEliminationID).
      apply appends_ret. }
    eapply appends_bind.
    { apply appends_when.
      schedule PR_complete (Some LiveIntervalsID).
      apply appends_ret. }
    schedule PR_complete (Some TwoAddressInstructionPassID).
    eapply appends_bind.
    { apply appends_when.
      schedule PR_complete (Some StrongPHIEliminationID).
      apply appends_ret. }
    schedule PR_complete (Some RegisterCoalescerID).
    schedule PR_complete
      (match EnableMachineSched opts with
       | BOU_TRUE => Some MachineSchedulerID
       | _ => None
       end).
    eapply appends_bind; [apply appends_when, appends_printAndVerify|].
    eapply appends_bind; [apply appends_addPass_P|].
    eapply appends_bind; [apply appends_printAndVerify|].
    eapply appends_bind; [apply (appends_ret false)|].
    eapply appends_bind; [apply appends_when, appends_printAndVerify|].
    schedule PR_complete (Some VirtRegRewriterID).
    eapply appends_bind; [apply appends_printAndVerify|].
    eapply appends_bind; [apply (appends_ret false)|].
    eapply appends_bind; [apply appends_when, appends_printAndVerify|].
    schedule PR_complete (applyDisable (Some StackSlotColoringID) (DisableSSC opts)).
    schedule PR_complete
      (applyDisable (Some MachineLICMID) (DisablePostRAMachineLICM opts)).
    apply appends_printAndVerify.
  - unfold optimizedPath.
    destruct (EnableStrongPHIElim opts), (EarlyLiveIntervals opts),
      (EnableMachineSched opts), (DisableSSC opts),
      (DisablePostRAMachineLICM opts); reflexivity.
Qed.

Lemma createRegAllocPass_default (Optimized : bool) (Default : option FunctionPassCtor) :
  ∃ RA, (createRegAllocPass opts defaultHooks Optimized Default).1 = Some RA
        ∧ isRegAllocID (getPassID RA) = true.
Proof.
  unfold createRegAllocPass.
  destruct Default as [Ctor|]; [|destruct (RegAlloc opts) as [| | | |n]];
    [destruct Ctor as [| | | |n]|..];
    destruct Optimized; cbn; eexists; split; reflexivity.
Qed.

Ltac decide_membership :=
  apply (bool_decide_unpack _); vm_compute; exact I.

Lemma fastPath_ids (RA : Pass) :
  isRegAllocID (getPassID RA) = true →
  (RegisterCoalescerID ∉ getPassID <$> fastPath opts tm RA)
  ∧ (MachineSchedulerID ∉ getPassID <$> fastPath opts tm RA).
Proof.
  unfold fastPath, printAndVerifyPasses.
  destruct RA as [k b]; destruct k; try discriminate; intros _;
    destruct (shouldPrintMachineCode tm), (VerifyMachineCode opts);
    split; decide_membership.
Qed.

Lemma optimizedPath_ids (RA : Pass) :
  isRegAllocID (getPassID RA) = true →
  RegisterCoalescerID ∈ (getPassID <$> optimizedPath opts tm RA)
  ∧ (MachineSchedulerID ∈ (getPassID <$> optimizedPath opts tm RA)
     ↔ EnableMachineSched opts = BOU_TRUE).
Proof.
  intros HRA. unfold optimizedPath. split.
  - rewrite !fmap_app, !elem_of_app. do 5 right. left. apply list_elem_of_here.
  - unfold printAndVerifyPasses.
    destruct RA as [k b]; destruct k; try discriminate HRA;
      destruct (shouldPrintMachineCode tm), (VerifyMachineCode opts),
        (EnableStrongPHIElim opts), (EarlyLiveIntervals opts),
        (DisableSSC opts), (DisablePostRAMachineLICM opts),
        (EnableMachineSched opts);
      first [ split; [discriminate|]; intros Hin; exfalso; revert Hin;
              decide_membership
            | split; [reflexivity|]; intros _; decide_membership
            | split; [intros Hin; exfalso; revert Hin; decide_membership
                     | discriminate] ].
Qed.

(** C9, as the code has it, for a configuration as the constructor
    builds it, the default target hooks and a registry with a factory
    for every real identity.  With the option unset the mode is the
    optimized one exactly above level None.  The fast path is PHI
    elimination, two-address lowering and the selected allocator (then
    the print and verify instrumentation, if enabled), with neither
    coalescing nor scheduling.  The optimized path contains the register
    coalescer, and contains the pre-allocation scheduler exactly when
    the machine-scheduler option is set to true: the constructor
    substitutes that identity by null. *)
Theorem regalloc_path_by_mode (pm : list Pass) (Default : option FunctionPassCtor) :
  let c := constructed tm pm in
  let Optimized := getOptimizeRegAlloc opts c in
  let sel := createRegAllocPass opts defaultHooks Optimized Default in
  new_TargetPassConfig tm pm = Ok c
  ∧ (OptimizeRegAlloc opts = BOU_UNSET →
     Optimized = bool_decide (getOptLevel tm ≠ OptNone))
  ∧ ∃ RA c',
      sel.1 = Some RA
      ∧ addMachinePasses_regalloc opts PR defaultHooks Default c = Ok (sel.2, c')
      ∧ PM c' = pm ++ (if Optimized then optimizedPath opts tm RA
                       else fastPath opts tm RA)
      ∧ (Optimized = false →
         (RegisterCoalescerID ∉ getPassID <$> fastPath opts tm RA)
         ∧ (MachineSchedulerID ∉ getPassID <$> fastPath opts tm RA))
      ∧ (Optimized = true →
         RegisterCoalescerID ∈ (getPassID <$> optimizedPath opts tm RA)
         ∧ (MachineSchedulerID ∈ (getPassID <$> optimizedPath opts tm RA)
            ↔ EnableMachineSched opts = BOU_TRUE)).
Proof.
  intros c Optimized sel. split; [reflexivity|]. split.
  { subst Optimized. unfold getOptimizeRegAlloc. intros ->. reflexivity. }
  destruct (createRegAllocPass_default Optimized Default) as (RA & Hsel & HRA).
  fold sel in Hsel.
  assert (Hc : Open tm c) by (subst c; repeat split).
  assert (Hrun : ∃ c', addMachinePasses_regalloc opts PR defaultHooks Default c
                       = Ok (sel.2, c')
                 ∧ PM c' = pm ++ (if Optimized then optimizedPath opts tm RA
                                  else fastPath opts tm RA)).
  { unfold addMachinePasses_regalloc, bind at 1, get.
    fold Optimized. subst sel. destruct Optimized.
    - destruct (createRegAllocPass opts defaultHooks true Default) as [RA' D'].
      cbn in Hsel. subst RA'.
      destruct (appends_addOptimizedRegAlloc RA c Hc) as (c' & Hrun & Hpm & _).
      exists c'. unfold bind. rewrite Hrun. done.
    - destruct (createRegAllocPass opts defaultHooks false Default) as [RA' D'].
      cbn in Hsel. subst RA'.
      destruct (appends_addFastRegAlloc RA c Hc) as (c' & Hrun & Hpm & _).
      exists c'. unfold bind. rewrite Hrun. done. }
  destruct Hrun as (c' & Hrun & Hpm).
  exists RA, c'. repeat split; try assumption.
  - apply (fastPath_ids RA HRA).
  - apply (fastPath_ids RA HRA).
  - apply (optimizedPath_ids RA HRA).
  - apply (optimizedPath_ids RA HRA).
  - apply (optimizedPath_ids RA HRA).
Qed.

End RegAllocPaths.

Lemma codegenRegistry_complete : registryComplete codegenRegistry.
Proof. intros k Hearly Hlicm. destruct k; try reflexivity; contradiction. Qed.

Lemma regalloc_path_by_mode_witness :
  let opts := defaultOptions in
  let tm := mkTM OptNone false in
  let c := constructed tm [] in
  let Optimized := getOptimizeRegAlloc opts c in
  let sel := createRegAllocPass opts defaultHooks Optimized None in
  registryComplete codegenRegistry
  ∧ new_TargetPassConfig tm [] = Ok c
  ∧ (OptimizeRegAlloc opts = BOU_UNSET →
     Optimized = bool_decide (getOptLevel tm ≠ OptNone))
  ∧ ∃ RA c',
      sel.1 = Some RA
      ∧ addMachinePasses_regalloc opts codegenRegistry defaultHooks None c
        = Ok (sel.2, c')
      ∧ PM c' = [] ++ (if Optimized then optimizedPath opts tm RA
                       else fastPath opts tm RA)
      ∧ (Optimized = false →
         (RegisterCoalescerID ∉ getPassID <$> fastPath opts tm RA)
         ∧ (MachineSchedulerID ∉ getPassID <$> fastPath opts tm RA))
      ∧ (Optimized = true →
         RegisterCoalescerID ∈ (getPassID <$> optimizedPath opts tm RA)
         ∧ (MachineSchedulerID ∈ (getPassID <$> optimizedPath opts tm RA)
            ↔ EnableMachineSched opts = BOU_TRUE)).
Proof.
  intros opts tm c Optimized sel. split; [exact codegenRegistry_complete|].
  exact (regalloc_path_by_mode defaultOptions codegenRegistry (mkTM OptNone false)
           codegenRegistry_complete [] None).
Defined.

(** C9 as the specification states it does not hold: at level Default
    with no option given, the mode is the optimized one and the path has
    the register coalescer but no pre-allocation scheduler. *)
Lemma optimized_path_without_scheduler :
  let tm := mkTM OptDefault false in
  let path := [ProcessImplicitDefsID; LiveVariablesID; MachineLoopInfoID;
               PHIEliminationID; TwoAddressInstructionPassID; RegisterCoalescerID;
               RAGreedyID; VirtRegRewriterID; StackSlotColoringID; MachineLICMID] in
  EnableMachineSched defaultOptions = BOU_UNSET
  ∧ new_TargetPassConfig tm [] = Ok (constructed tm [])
  ∧ getOptimizeRegAlloc defaultOptions (constructed tm []) = true
  ∧ scheduledPasses (addMachinePasses_regalloc defaultOptions codegenRegistry
                       defaultHooks None (constructed tm []))
    = Ok path
  ∧ RegisterCoalescerID ∈ path
  ∧ MachineSchedulerID ∉ path.
Proof.
  intros tm path. repeat split; try (vm_compute; reflexivity);
    apply (bool_decide_unpack _); vm_compute; exact I.
Qed.


(** * Further properties of the gate *)

Lemma addPasses_app (l1 l2 : list Pass) (c : TargetPassConfig) :
  addPasses (l1 ++ l2) c = (addPasses l1;; addPasses l2) c.
Proof.
  revert c. induction l1 as [|P l1 IH]; intros c; [reflexivity|].
  cbn [app addPasses]. unfold bind.
  destruct (addPass_P P c) as [[[] c1]|e]; [|reflexivity].
  rewrite IH. reflexivity.
Qed.

Lemma addPass_P_frame (P : Pass) (c c' : TargetPassConfig) :
  addPass_P P c = Ok (tt, c') → frame c' = frame c.
Proof.
  intros Hrun. destruct (addPass_P_Initialized _ _ _ Hrun) as [Hi _].
  rewrite addPass_P_eq in Hrun by done. cbn in Hrun.
  case_match; [discriminate|]. injection Hrun as <-.
  unfold frame. cbn. rewrite Hi. reflexivity.
Qed.

(** Every failure of the gate on a configuration that is not yet
    initialised is the stop-before-start error. *)
Lemma addPass_P_error (P : Pass) (c : TargetPassConfig) (e : Failure) :
  Initialized c = false → addPass_P P c = Err e → e = stopBeforeStart.
Proof.
  intros Hi. rewrite addPass_P_eq by done. cbn.
  case_match; [|discriminate]. intros [= <-]. reflexivity.
Qed.

Lemma addPasses_preserves_frame (l : list Pass) (c c' : TargetPassConfig) :
  addPasses l c = Ok (tt, c') → frame c' = frame c.
Proof.
  revert c. induction l as [|P l IH]; intros c.
  - intros [= <-]. reflexivity.
  - cbn [addPasses]. unfold bind.
    destruct (addPass_P P c) as [[[] c1]|e] eqn:Hgate; [|discriminate].
    intros Hrest. rewrite (IH _ Hrest). exact (addPass_P_frame _ _ _ Hgate).
Qed.

(** X1. The gate changes only the pass manager and its own two flags: a
    run over any sequence of passes leaves the boundaries, the target
    machine, the substitution table, the inserted passes and the options of
    the configuration as they were, so every identity resolves afterwards
    as it did before. *)
Theorem gate_frame (l : list Pass) (c c' : TargetPassConfig) :
  addPasses l c = Ok (tt, c') →
  frame c' = frame c
  ∧ ∀ ID, getPassSubstitution c' ID = getPassSubstitution c ID
          ∧ insertedAfter ID (InsertedPasses (Impl c'))
            = insertedAfter ID (InsertedPasses (Impl c)).
Proof.
  intros Hrun. pose proof (addPasses_preserves_frame _ _ _ Hrun) as Hframe.
  split; [exact Hframe|]. intros ID.
  unfold getPassSubstitution. injection Hframe as _ _ _ -> _ _ _. done.
Qed.

Lemma gate_frame_witness :
  let c := mkConfig [] (Some (OtherPassID 1)) (Some (OtherPassID 3)) false false
                    (mkTM OptDefault false) (mkImpl ∅ []) false false true in
  let c' := PM_add (passOf (OtherPassID 2)) (set_Started true c) in
  frame c' = frame c
  ∧ ∀ ID, getPassSubstitution c' ID = getPassSubstitution c ID
          ∧ insertedAfter ID (InsertedPasses (Impl c'))
            = insertedAfter ID (InsertedPasses (Impl c)).
Proof.
  intros c c'.
  apply (gate_frame [passOf (OtherPassID 1); passOf (OtherPassID 2)] c c').
  reflexivity.
Defined.

(** X2. The two flags of the gate only ever switch on, and a gate that has
    stopped stays shut: a run from a configuration with [Started] keeps it,
    and a run from a configuration with [Stopped] keeps it and appends
    nothing. *)
Theorem addPasses_flags_monotone (l : list Pass) (c c' : TargetPassConfig) :
  addPasses l c = Ok (tt, c') →
  (Started c = true → Started c' = true)
  ∧ (Stopped c = true → Stopped c' = true ∧ PM c' = PM c).
Proof.
  revert c. induction l as [|P l IH]; intros c.
  - intros [= <-]. auto.
  - cbn [addPasses]. unfold bind.
    destruct (addPass_P P c) as [[[] c1]|e] eqn:Hgate; [|discriminate].
    intros Hrest. destruct (IH _ Hrest) as [IHst IHsp].
    destruct (addPass_P_Initialized _ _ _ Hgate) as [Hi _].
    rewrite addPass_P_eq in Hgate by done. cbn in Hgate.
    case_match; [discriminate|]. injection Hgate as <-. cbn in *.
    split.
    + intros Hst. apply IHst. rewrite Hst. reflexivity.
    + intros Hsp. rewrite Hsp in *. cbn in IHsp.
      rewrite andb_false_r in IHsp. apply IHsp. reflexivity.
Qed.

Lemma addPasses_flags_monotone_witness :
  let c := mkConfig [passOf (OtherPassID 9)] None (Some (OtherPassID 9)) true true
                    (mkTM OptDefault false) (mkImpl ∅ []) false false true in
  (Started c = true → Started c = true)
  ∧ (Stopped c = true → Stopped c = true ∧ PM c = PM c).
Proof.
  intros c.
  apply (addPasses_flags_monotone [passOf (OtherPassID 1); passOf (OtherPassID 2)] c c).
  reflexivity.
Defined.

Lemma throughFirst_prefix (ID : AnalysisID) (l : list Pass) :
  ∃ l3, l = throughFirst ID l ++ l3.
Proof.
  induction l as [|P l [l3 IH]]; [exists []; reflexivity|].
  cbn [throughFirst]. case_decide.
  - exists l. reflexivity.
  - exists l3. cbn. rewrite <- IH. reflexivity.
Qed.

Lemma throughFirst_None (l : list Pass) : throughFirst None l = l.
Proof.
  induction l as [|P l IH]; [reflexivity|].
  cbn [throughFirst]. rewrite decide_False by discriminate. rewrite IH. reflexivity.
Qed.

(** A gate that has started and stopped accepts every pass and appends
    none. *)
Lemma addPasses_done (l : list Pass) (c : TargetPassConfig) :
  Initialized c = false → Started c = true → Stopped c = true →
  ∃ c', addPasses l c = Ok (tt, c') ∧ PM c' = PM c
        ∧ Started c' = true ∧ Stopped c' = true.
Proof.
  revert c. induction l as [|P l IH]; intros c Hi Hst Hsp.
  - exists c. done.
  - cbn [addPasses]. unfold bind. rewrite addPass_P_eq by done. cbn.
    rewrite Hst, Hsp. cbn.
    edestruct (IH (mkConfig (PM c) (StartAfter c) (StopAfter c) true true
                            (TM c) (Impl c) false (DisableVerify c) (EnableTailMerge c)))
      as (c' & Hrun & Hpm & Hst' & Hsp'); [reflexivity..|].
    exists c'. done.
Qed.

(** A gate that has started and not stopped appends every pass up to and
    including the first stop boundary, and never fails. *)
Lemma addPasses_running (l : list Pass) (c : TargetPassConfig) :
  Initialized c = false → Started c = true → Stopped c = false →
  ∃ c', addPasses l c = Ok (tt, c')
        ∧ PM c' = PM c ++ throughFirst (StopAfter c) l
        ∧ Started c' = true
        ∧ (Stopped c' = true ↔ ∃ P, P ∈ l ∧ Some (getPassID P) = StopAfter c).
Proof.
  revert c. induction l as [|P l IH]; intros c Hi Hst Hsp.
  - exists c. rewrite app_nil_r. repeat split; try done.
    + rewrite Hsp. discriminate.
    + intros (P & HP & _). apply elem_of_nil in HP. contradiction.
  - cbn [addPasses throughFirst]. unfold bind. rewrite addPass_P_eq by done. cbn.
    rewrite Hst, Hsp. cbn.
    destruct (decide (Some (getPassID P) = StopAfter c)) as [Hstop|Hstop].
    + rewrite bool_decide_eq_true_2 by done.
      edestruct (addPasses_done l
                   (mkConfig (PM c ++ [P]) (StartAfter c) (StopAfter c) true true
                      (TM c) (Impl c) false (DisableVerify c) (EnableTailMerge c)))
        as (c' & Hrun & Hpm & Hst' & Hsp'); [reflexivity..|].
      exists c'. repeat split; try done.
      intros _. exists P. split; [apply list_elem_of_here|done].
    + rewrite bool_decide_eq_false_2 by done.
      edestruct (IH (mkConfig (PM c ++ [P]) (StartAfter c) (StopAfter c) true false
                      (TM c) (Impl c) false (DisableVerify c) (EnableTailMerge c)))
        as (c' & Hrun & Hpm & Hst' & Hsp'); [reflexivity..|].
      cbn in Hpm, Hsp'.
      exists c'. repeat split; try done.
      * rewrite Hpm, <- app_assoc. reflexivity.
      * intros Hdone. apply Hsp' in Hdone as (Q & HQ & HQstop).
        exists Q. split; [apply list_elem_of_further; exact HQ|exact HQstop].
      * intros (Q & HQ & HQstop). apply Hsp'.
        apply elem_of_cons in HQ as [->|HQ]; [contradiction|].
        exists Q. done.
Qed.

(** X3. Stop-after, in closed form: once the gate has started and while it
    has not stopped, a run never fails and appends the candidate passes up
    to and including the first one whose identity is the StopAfter
    boundary; it appends all of them when no boundary is configured, and
    ends stopped exactly when the boundary occurred. *)
Theorem stop_after_closed_form (l : list Pass) (c : TargetPassConfig) :
  Initialized c = false → Started c = true → Stopped c = false →
  ∃ c', addPasses l c = Ok (tt, c')
        ∧ PM c' = PM c ++ throughFirst (StopAfter c) l
        ∧ (StopAfter c = None → PM c' = PM c ++ l)
        ∧ (Stopped c' = true ↔ ∃ P, P ∈ l ∧ Some (getPassID P) = StopAfter c).
Proof.
  intros Hi Hst Hsp.
  destruct (addPasses_running l c Hi Hst Hsp) as (c' & Hrun & Hpm & _ & Hstop).
  exists c'. repeat split; try done.
  - intros Hnone. rewrite Hpm, Hnone, throughFirst_None. reflexivity.
  - apply Hstop.
  - apply Hstop.
Qed.

Lemma stop_after_closed_form_witness :
  let c := mkConfig [] None (Some (OtherPassID 2)) true false
                    (mkTM OptDefault false) (mkImpl ∅ []) false false true in
  let l := [passOf (OtherPassID 1); passOf (OtherPassID 2); passOf (OtherPassID 3)] in
  ∃ c', addPasses l c = Ok (tt, c')
        ∧ PM c' = PM c ++ throughFirst (StopAfter c) l
        ∧ (StopAfter c = None → PM c' = PM c ++ l)
        ∧ (Stopped c' = true ↔ ∃ P, P ∈ l ∧ Some (getPassID P) = StopAfter c).
Proof.
  intros c l. apply (stop_after_closed_form l c); reflexivity.
Defined.

(** Once started, the gate never fails. *)
Lemma addPasses_started_total (l : list Pass) (c : TargetPassConfig) :
  Initialized c = false → Started c = true →
  ∃ c', addPasses l c = Ok (tt, c') ∧ Started c' = true.
Proof.
  intros Hi Hst. destruct (Stopped c) eqn:Hsp.
  - destruct (addPasses_done l c Hi Hst Hsp) as (c' & Hrun & _ & Hst' & _).
    exists c'. done.
  - destruct (addPasses_running l c Hi Hst Hsp) as (c' & Hrun & _ & Hst' & _).
    exists c'. done.
Qed.

(** X4. Whatever the state of the gate, the passes that a run appends are
    one contiguous segment of the candidate sequence, in its order: the
    gate drops a beginning and an end, never a pass in between. *)
Theorem gate_appends_contiguous_segment (l : list Pass) (c c' : TargetPassConfig) :
  addPasses l c = Ok (tt, c') →
  ∃ l1 l2 l3, l = l1 ++ l2 ++ l3 ∧ PM c' = PM c ++ l2.
Proof.
  revert c. induction l as [|P l IH]; intros c Hrun.
  - injection Hrun as <-. exists [], [], [].
    split; [reflexivity|symmetry; apply app_nil_r].
  - assert (Hi : Initialized c = false).
    { cbn [addPasses] in Hrun. unfold bind in Hrun.
      destruct (addPass_P P c) as [[[] c1]|e] eqn:Hgate; [|discriminate].
      apply (addPass_P_Initialized _ _ _ Hgate). }
    destruct (Started c) eqn:Hst; [destruct (Stopped c) eqn:Hsp|].
    + destruct (addPasses_done (P :: l) c Hi Hst Hsp) as (c2 & Hrun2 & Hpm & _).
      rewrite Hrun in Hrun2. injection Hrun2 as <-.
      exists [], [], (P :: l).
      split; [reflexivity|rewrite app_nil_r; exact Hpm].
    + destruct (addPasses_running (P :: l) c Hi Hst Hsp) as (c2 & Hrun2 & Hpm & _).
      rewrite Hrun in Hrun2. injection Hrun2 as <-.
      destruct (throughFirst_prefix (StopAfter c) (P :: l)) as [l3 Hl3].
      exists [], (throughFirst (StopAfter c) (P :: l)), l3. done.
    + cbn [addPasses] in Hrun. unfold bind in Hrun.
      rewrite addPass_P_eq in Hrun by done. cbn in Hrun.
      rewrite Hst in Hrun. cbn in Hrun.
      destruct ((Stopped c || bool_decide (StopAfter c = Some (getPassID P)))
                && negb (bool_decide (StartAfter c = Some (getPassID P))));
        [discriminate|].
      destruct (IH _ Hrun) as (l1 & l2 & l3 & Hl & Hpm). cbn in Hpm.
      exists (P :: l1), l2, l3. rewrite Hl. done.
Qed.

Lemma gate_appends_contiguous_segment_witness :
  let c := mkConfig [] (Some (OtherPassID 1)) (Some (OtherPassID 3)) false false
                    (mkTM OptDefault false) (mkImpl ∅ []) false false true in
  let l := [passOf (OtherPassID 1); passOf (OtherPassID 2);
            passOf (OtherPassID 3); passOf (OtherPassID 4)] in
  ∃ l1 l2 l3, l = l1 ++ l2 ++ l3
              ∧ [passOf (OtherPassID 2); passOf (OtherPassID 3)] = PM c ++ l2.
Proof.
  intros c l.
  apply (gate_appends_contiguous_segment l c
           (mkConfig [passOf (OtherPassID 2); passOf (OtherPassID 3)]
              (Some (OtherPassID 1)) (Some (OtherPassID 3)) true true
              (mkTM OptDefault false) (mkImpl ∅ []) false false true)).
  reflexivity.
Defined.

(** X5. Start-after, in closed form: while the gate waits for its start
    boundary, with a different stop boundary that does not come first, a
    run appends the candidate passes that follow the first pass of the
    StartAfter identity, up to and including the first one of the StopAfter
    identity among them. *)
Theorem start_after_closed_form (l : list Pass) (c : TargetPassConfig) :
  Initialized c = false → Started c = false → Stopped c = false →
  StartAfter c ≠ StopAfter c →
  (∀ P, P ∈ beforeFirst (StartAfter c) l → Some (getPassID P) ≠ StopAfter c) →
  ∃ c', addPasses l c = Ok (tt, c')
        ∧ PM c' = PM c ++ throughFirst (StopAfter c) (afterFirst (StartAfter c) l).
Proof.
  revert c. induction l as [|P l IH]; intros c Hi Hst Hsp Hne Hbefore.
  - exists c. rewrite app_nil_r. done.
  - cbn [addPasses afterFirst]. unfold bind. rewrite addPass_P_eq by done. cbn.
    rewrite Hst, Hsp. cbn.
    destruct (decide (Some (getPassID P) = StartAfter c)) as [Hstart|Hstart].
    + rewrite (bool_decide_eq_true_2 (StartAfter c = _)) by done.
      rewrite (bool_decide_eq_false_2 (StopAfter c = _)) by congruence.
      cbn.
      edestruct (addPasses_running l
                   (mkConfig (PM c) (StartAfter c) (StopAfter c) true false
                      (TM c) (Impl c) false (DisableVerify c) (EnableTailMerge c)))
        as (c' & Hrun & Hpm & _); [reflexivity..|].
      exists c'. done.
    + rewrite (bool_decide_eq_false_2 (StartAfter c = _)) by congruence.
      assert (Hstop : Some (getPassID P) ≠ StopAfter c).
      { apply Hbefore. cbn [beforeFirst]. rewrite decide_False by done.
        apply list_elem_of_here. }
      rewrite (bool_decide_eq_false_2 (StopAfter c = _)) by congruence.
      cbn.
      edestruct (IH (mkConfig (PM c) (StartAfter c) (StopAfter c) false false
                      (TM c) (Impl c) false (DisableVerify c) (EnableTailMerge c)))
        as (c' & Hrun & Hpm); [reflexivity..|exact Hne| |].
      { intros Q HQ. apply Hbefore. cbn [beforeFirst].
        rewrite decide_False by done. apply list_elem_of_further. exact HQ. }
      exists c'. done.
Qed.

Lemma start_after_closed_form_witness :
  let c := mkConfig [] (Some (OtherPassID 2)) (Some (OtherPassID 4)) false false
                    (mkTM OptDefault false) (mkImpl ∅ []) false false true in
  let l := [passOf (OtherPassID 1); passOf (OtherPassID 2); passOf (OtherPassID 3);
            passOf (OtherPassID 4); passOf (OtherPassID 5)] in
  ∃ c', addPasses l c = Ok (tt, c')
        ∧ PM c' = PM c ++ throughFirst (StopAfter c) (afterFirst (StartAfter c) l).
Proof.
  intros c l. apply (start_after_closed_form l c); try reflexivity.
  - discriminate.
  - intros P HP. cbn in HP.
    apply elem_of_cons in HP as [->|HP]; [discriminate|].
    apply elem_of_nil in HP. contradiction.
Defined.

(** X6. While the gate waits for its start boundary, a run fails exactly
    when a pass of the StopAfter identity comes before the first pass of
    the StartAfter identity, and then with the stop-before-start error;
    the gate has no other failure on a configuration that is not yet
    initialised. *)
Theorem gate_fails_iff_stop_first (l : list Pass) (c : TargetPassConfig) :
  Initialized c = false → Started c = false → Stopped c = false →
  (∀ e, addPasses l c = Err e → e = stopBeforeStart)
  ∧ (addPasses l c = Err stopBeforeStart
     ↔ ∃ P, P ∈ beforeFirst (StartAfter c) l ∧ Some (getPassID P) = StopAfter c).
Proof.
  revert c. induction l as [|P l IH]; intros c Hi Hst Hsp.
  - split; [discriminate|]. split; [discriminate|].
    intros (P & HP & _). apply elem_of_nil in HP. contradiction.
  - cbn [addPasses beforeFirst]. unfold bind. rewrite addPass_P_eq by done. cbn.
    rewrite Hst, Hsp. cbn.
    destruct (decide (Some (getPassID P) = StartAfter c)) as [Hstart|Hstart].
    + rewrite (bool_decide_eq_true_2 (StartAfter c = _)) by done.
      rewrite andb_false_r.
      edestruct (addPasses_started_total l
                   (mkConfig (PM c) (StartAfter c) (StopAfter c) true
                      (bool_decide (StopAfter c = Some (getPassID P)))
                      (TM c) (Impl c) false (DisableVerify c) (EnableTailMerge c)))
        as (c' & Hrun & _); [reflexivity..|].
      rewrite Hrun. split; [discriminate|]. split; [discriminate|].
      intros (Q & HQ & _). apply elem_of_nil in HQ. contradiction.
    + rewrite (bool_decide_eq_false_2 (StartAfter c = _)) by congruence.
      destruct (decide (Some (getPassID P) = StopAfter c)) as [Hstop|Hstop].
      * rewrite (bool_decide_eq_true_2 (StopAfter c = _)) by done. cbn.
        split; [intros e [= <-]; reflexivity|].
        split; [|reflexivity]. intros _. exists P.
        split; [apply list_elem_of_here|exact Hstop].
      * rewrite (bool_decide_eq_false_2 (StopAfter c = _)) by congruence. cbn.
        edestruct (IH (mkConfig (PM c) (StartAfter c) (StopAfter c) false false
                        (TM c) (Impl c) false (DisableVerify c) (EnableTailMerge c)))
          as (IHerr & IHiff); [reflexivity..|].
        cbn in IHiff. split; [exact IHerr|].
        rewrite IHiff. split.
        -- intros (Q & HQ & HQstop). exists Q.
           split; [apply list_elem_of_further; exact HQ|exact HQstop].
        -- intros (Q & HQ & HQstop).
           apply elem_of_cons in HQ as [->|HQ]; [contradiction|].
           exists Q. done.
Qed.

Lemma gate_fails_iff_stop_first_witness :
  let c := mkConfig [] (Some (OtherPassID 3)) (Some (OtherPassID 2)) false false
                    (mkTM OptDefault false) (mkImpl ∅ []) false false true in
  let l := [passOf (OtherPassID 1); passOf (OtherPassID 2); passOf (OtherPassID 3)] in
  (∀ e, addPasses l c = Err e → e = stopBeforeStart)
  ∧ (addPasses l c = Err stopBeforeStart
     ↔ ∃ P, P ∈ beforeFirst (StartAfter c) l ∧ Some (getPassID P) = StopAfter c).
Proof.
  intros c l. apply (gate_fails_iff_stop_first l c); reflexivity.
Defined.

(** * Further properties of substitution and overrides *)

(** X7. Substitution round trip: after [substitutePass S T] the identity
    [S] resolves to [T], also when [T] is null or when [S] was mapped
    before; every other identity resolves as it did; the pass manager, the
    gate and the inserted passes are untouched.  The function is not
    guarded: it succeeds on any configuration, initialised or not. *)
Theorem substitutePass_getPassSubstitution
    (c : TargetPassConfig) (StandardID TargetID ID : AnalysisID) :
  ∃ c', substitutePass StandardID TargetID c = Ok (tt, c')
        ∧ getPassSubstitution c' StandardID = TargetID
        ∧ (ID ≠ StandardID → getPassSubstitution c' ID = getPassSubstitution c ID)
        ∧ InsertedPasses (Impl c') = InsertedPasses (Impl c)
        ∧ (PM c', Started c', Stopped c', StartAfter c', StopAfter c', Initialized c')
          = (PM c, Started c, Stopped c, StartAfter c, StopAfter c, Initialized c).
Proof.
  eexists. split; [reflexivity|]. unfold getPassSubstitution. cbn.
  rewrite lookup_insert_eq. repeat split.
  intros Hne. rewrite lookup_insert_ne by congruence. reflexivity.
Qed.

(** An identity without an entry in the table resolves to itself. *)
Lemma getPassSubstitution_unmapped (c : TargetPassConfig) (ID : AnalysisID) :
  TargetPasses (Impl c) !! ID = None → getPassSubstitution c ID = ID.
Proof. unfold getPassSubstitution. intros ->. reflexivity. Qed.

(** X8. [overridePass] never fails, and it never invents a pass: the final
    identity is null, or the substitute it was given, or, only for
    MachineSchedulerID forced on over a null substitute, the standard
    identity itself.  The fatal error of [applyOverride] cannot arise
    through [overridePass], which always hands it a non-null fallback. *)
Theorem overridePass_total (opts : Options) (StandardID TargetID : AnalysisID) :
  ∃ FinalID, overridePass opts StandardID TargetID = Ok FinalID
    ∧ (FinalID = None ∨ FinalID = TargetID
       ∨ (FinalID = StandardID ∧ StandardID = Some MachineSchedulerID
          ∧ TargetID = None ∧ EnableMachineSched opts = BOU_TRUE)).
Proof.
  unfold overridePass, applyDisable, applyOverride.
  repeat case_decide; subst; repeat case_match; eauto 10.
Qed.

(** X9. An identity that no override rule names falls through: any
    identity other than the fourteen bound to a disable flag and
    MachineSchedulerID, and the null identity, keeps its substitute
    whatever the options are. *)
Theorem overridePass_fall_through
    (opts : Options) (StandardID TargetID : AnalysisID) :
  (∀ k flag, (k, flag) ∈ disableRules opts → StandardID ≠ Some k) →
  StandardID ≠ Some MachineSchedulerID →
  overridePass opts StandardID TargetID = Ok TargetID.
Proof.
  intros Hrules Hsched. unfold overridePass.
  repeat (case_decide;
          [exfalso;
           match goal with Hid : StandardID = Some _ |- _ => revert Hid end;
           first [exact Hsched | eapply Hrules];
           unfold disableRules;
           repeat first [apply list_elem_of_here | apply list_elem_of_further]|]).
  reflexivity.
Qed.

Lemma overridePass_fall_through_witness :
  overridePass defaultOptions (Some PHIEliminationID) (Some (OtherPassID 4))
  = Ok (Some (OtherPassID 4)).
Proof.
  apply (overridePass_fall_through defaultOptions (Some PHIEliminationID)
           (Some (OtherPassID 4))); [|discriminate].
  intros k flag Hin. unfold disableRules in Hin.
  repeat (apply elem_of_cons in Hin as [[= -> ->] | Hin]; [discriminate|]).
  apply elem_of_nil in Hin. contradiction.
Defined.

(** X10. The configuration that the constructor returns: the pass manager
    it was given, an open gate without boundaries, no inserted pass, and a
    substitution table that maps the two pseudo identities to their real
    passes, suppresses EarlyIfConverterID and MachineSchedulerID, and
    leaves every other identity to itself. *)
Theorem new_TargetPassConfig_table (tm : TargetMachine) (pm : list Pass) :
  ∃ c, new_TargetPassConfig tm pm = Ok c
       ∧ PM c = pm ∧ TM c = tm
       ∧ (Started c, Stopped c, StartAfter c, StopAfter c, Initialized c)
         = (true, false, None, None, false)
       ∧ InsertedPasses (Impl c) = []
       ∧ ∀ ID, getPassSubstitution c ID = ctorSubstitution ID.
Proof.
  eexists. split; [reflexivity|]. repeat split.
  intros ID. unfold getPassSubstitution. cbn.
  destruct ID as [k|]; [destruct k|]; reflexivity.
Qed.

(** X11. Resolution on a fresh configuration, for any options: the early
    and the late tail duplication are the same pass under two different
    disable flags, and so are the two runs of machine LICM; the early
    if-converter stays off whatever its option is, because the constructor
    suppresses it; the machine scheduler runs only when forced on. *)
Theorem fresh_resolution (opts : Options) (tm : TargetMachine) (pm : list Pass) :
  let resolve ID := overridePass opts ID (getPassSubstitution (constructed tm pm) ID) in
  resolve (Some EarlyTailDuplicateID)
  = Ok (if DisableEarlyTailDup opts then None else Some TailDuplicateID)
  ∧ resolve (Some TailDuplicateID)
    = Ok (if DisableTailDuplicate opts then None else Some TailDuplicateID)
  ∧ resolve (Some PostRAMachineLICMID)
    = Ok (if DisablePostRAMachineLICM opts then None else Some MachineLICMID)
  ∧ resolve (Some MachineLICMID)
    = Ok (if DisableMachineLICM opts then None else Some MachineLICMID)
  ∧ resolve (Some EarlyIfConverterID) = Ok None
  ∧ resolve (Some MachineSchedulerID)
    = Ok (match EnableMachineSched opts with
          | BOU_TRUE => Some MachineSchedulerID
          | _ => None
          end).
Proof.
  cbn zeta. repeat split; try reflexivity.
  - change (overridePass opts (Some EarlyIfConverterID) None = Ok None).
    apply overridePass_null. left. discriminate.
  - change (applyOverride None (EnableMachineSched opts) (Some MachineSchedulerID)
            = Ok (match EnableMachineSched opts with
                  | BOU_TRUE => Some MachineSchedulerID
                  | _ => None
                  end)).
    destruct (EnableMachineSched opts); reflexivity.
Qed.

(** * Further properties of scheduling by identity *)

(** X12. The identity that [addPass] returns reports what happened: it is
    the resolution of the identity asked for; when it is null the
    configuration is exactly as before, nothing was created, shown to the
    gate or inserted; when it is not null the pass has a factory. *)
Theorem addPass_ID_return
    (opts : Options) (PR : PassRegistry) (c c' : TargetPassConfig)
    (PassID FinalID : AnalysisID) :
  addPass_ID opts PR PassID c = Ok (FinalID, c') →
  overridePass opts PassID (getPassSubstitution c PassID) = Ok FinalID
  ∧ (FinalID = None → c' = c)
  ∧ (∀ ID, FinalID = Some ID → PR ID = true).
Proof.
  unfold addPass_ID, bind at 1 2, get at 1, lift.
  destruct (overridePass opts PassID (getPassSubstitution c PassID))
    as [[ID|]|e]; [| |discriminate].
  - unfold createPass. destruct (PR ID) eqn:Hreg; [|discriminate].
    unfold bind, get, ret.
    destruct (addPass_P _ c) as [[[] c1]|e]; [|discriminate].
    destruct (addInserted _ _ _ c1) as [[[] c2]|e]; [|discriminate].
    intros [= <- <-]. repeat split; [discriminate|].
    intros ID' [= <-]. exact Hreg.
  - intros [= <- <-]. repeat split. discriminate.
Qed.

Lemma addPass_ID_return_witness :
  let c := constructed (mkTM OptDefault false) [] in
  overridePass defaultOptions (Some EarlyIfConverterID)
    (getPassSubstitution c (Some EarlyIfConverterID)) = Ok None
  ∧ (@None PassKind = None → c = c)
  ∧ (∀ ID, None = Some ID → codegenRegistry ID = true).
Proof.
  intros c.
  apply (addPass_ID_return defaultOptions codegenRegistry c c
           (Some EarlyIfConverterID) None).
  reflexivity.
Defined.

(** An open gate without a stop boundary appends every pass. *)
Lemma addPasses_open (l : list Pass) (c : TargetPassConfig) :
  Initialized c = false → Started c = true → Stopped c = false →
  StopAfter c = None →
  ∃ c', addPasses l c = Ok (tt, c') ∧ PM c' = PM c ++ l
        ∧ Started c' = true ∧ Stopped c' = false.
Proof.
  intros Hi Hst Hsp Hso.
  destruct (addPasses_running l c Hi Hst Hsp) as (c' & Hrun & Hpm & Hst' & Hstop).
  exists c'. rewrite Hso, throughFirst_None in Hpm. repeat split; try done.
  destruct (Stopped c') eqn:Hsp'; [|reflexivity].
  destruct Hstop as [Hstop _]. destruct (Hstop eq_refl) as (P & _ & HP).
  rewrite Hso in HP. discriminate.
Qed.

(** X13. Scheduling with insertions while the gate is running: the
    anchor's pass is shown to the gate, then one pass for every identity
    recorded for the anchor, in the order of the [insertPass] calls and as
    often as it was recorded, and nothing else: passes inserted after an
    inserted pass do not fire.  The stop boundary cuts through them: with
    no boundary all are appended, and when the anchor's own pass is the
    StopAfter boundary its inserted passes are dropped. *)
Theorem addPass_ID_inserts_in_order
    (opts : Options) (PR : PassRegistry) (c : TargetPassConfig)
    (PassID : AnalysisID) (ID : PassKind) (zs : list PassKind) :
  Initialized c = false → Started c = true → Stopped c = false →
  overridePass opts PassID (getPassSubstitution c PassID) = Ok (Some ID) →
  PR ID = true →
  insertedAfter PassID (InsertedPasses (Impl c)) = Some <$> zs →
  Forall (λ z, PR z = true) zs →
  ∃ c', addPass_ID opts PR PassID c = Ok (Some ID, c')
        ∧ PM c' = PM c ++ throughFirst (StopAfter c) (passOf ID :: (passOf <$> zs))
        ∧ (StopAfter c = None → PM c' = PM c ++ passOf ID :: (passOf <$> zs))
        ∧ (StopAfter c = Some ID → PM c' = PM c ++ [passOf ID]).
Proof.
  intros Hi Hst Hsp Hres Hreg Hzs Hregs.
  rewrite (addPass_ID_resolved _ _ _ _ _ Hres Hreg).
  destruct (addPasses_running (passOf ID :: (passOf <$> zs)) c Hi Hst Hsp)
    as (c' & Hrun & Hpm & _).
  exists c'. repeat split.
  - cbn [addPasses] in Hrun. unfold bind in *.
    destruct (addPass_P (passOf ID) c) as [[[] c1]|e]; [|discriminate].
    rewrite (addInserted_addPasses _ _ _ zs c1 Hzs Hregs), Hrun. reflexivity.
  - exact Hpm.
  - intros Hnone. rewrite Hpm, Hnone, throughFirst_None. reflexivity.
  - intros Hstop. rewrite Hpm, Hstop. cbn [throughFirst].
    rewrite decide_True by reflexivity. reflexivity.
Qed.

Lemma addPass_ID_inserts_in_order_witness :
  let c := insertionOrderConfig in
  let zs := [OtherPassID 2; OtherPassID 3; OtherPassID 3] in
  ∃ c', addPass_ID defaultOptions codegenRegistry (Some (OtherPassID 1)) c
        = Ok (Some (OtherPassID 1), c')
        ∧ PM c' = PM c ++ throughFirst (StopAfter c)
                            (passOf (OtherPassID 1) :: (passOf <$> zs))
        ∧ (StopAfter c = None →
           PM c' = PM c ++ passOf (OtherPassID 1) :: (passOf <$> zs))
        ∧ (StopAfter c = Some (OtherPassID 1) →
           PM c' = PM c ++ [passOf (OtherPassID 1)]).
Proof.
  intros c zs.
  apply (addPass_ID_inserts_in_order defaultOptions codegenRegistry c
           (Some (OtherPassID 1)) (OtherPassID 1) zs);
    try reflexivity.
  repeat constructor.
Defined.

(** X14. On a configuration that is already initialised the gate refuses
    every pass, so scheduling an identity that resolves to a registered
    pass fails with the immutability assertion, whereas scheduling one
    that resolves to null still returns null without failing. *)
Theorem addPass_ID_after_initialization
    (opts : Options) (PR : PassRegistry) (c : TargetPassConfig)
    (PassID FinalID : AnalysisID) :
  Initialized c = true →
  overridePass opts PassID (getPassSubstitution c PassID) = Ok FinalID →
  (∀ ID, FinalID = Some ID → PR ID = true) →
  addPass_ID opts PR PassID c
  = match FinalID with
    | None => Ok (None, c)
    | Some _ => Err (AssertionFailed "PassConfig is immutable")
    end.
Proof.
  intros Hi Hres Hreg.
  unfold addPass_ID, bind at 1 2, get at 1, lift. rewrite Hres.
  destruct FinalID as [ID|]; [|reflexivity].
  unfold createPass. rewrite (Hreg ID eq_refl).
  unfold bind at 1, addPass_P, bind at 1, get at 1. rewrite Hi. reflexivity.
Qed.

Lemma addPass_ID_after_initialization_witness :
  let c := mkConfig [] None None true false (mkTM OptDefault false)
                    (mkImpl ∅ []) true false true in
  addPass_ID defaultOptions codegenRegistry (Some PHIEliminationID) c
  = Err (AssertionFailed "PassConfig is immutable").
Proof.
  intros c.
  apply (addPass_ID_after_initialization defaultOptions codegenRegistry c
           (Some PHIEliminationID) (Some PHIEliminationID)).
  - reflexivity.
  - reflexivity.
  - intros ID [= <-]. reflexivity.
Defined.

(** * The stages and the gate *)

Lemma addPasses_preserves_static (l : list Pass) (c c' : TargetPassConfig) :
  addPasses l c = Ok (tt, c') → static c' = static c.
Proof.
  intros Hrun. pose proof (addPasses_preserves_frame _ _ _ Hrun) as Hframe.
  unfold static. injection Hframe as _ _ -> -> _ -> _. reflexivity.
Qed.

Lemma GateOnly_lift {A} (r : result A) : GateOnly (lift r).
Proof. intros S. exists [], r. intros c _. reflexivity. Qed.

Lemma GateOnly_ret {A} (a : A) : GateOnly (ret a).
Proof. exact (GateOnly_lift (Ok a)). Qed.

Lemma GateOnly_fail {A} (e : Failure) : GateOnly (@fail A e).
Proof. exact (GateOnly_lift (Err e)). Qed.

Lemma GateOnly_addPass_P (P : Pass) : GateOnly (addPass_P P).
Proof.
  intros S. exists [P], (Ok tt). intros c _. cbn [addPasses]. unfold bind, lift, ret.
  destruct (addPass_P P c) as [[[] c1]|e]; reflexivity.
Qed.

Lemma GateOnly_bind {A B} (m : M A) (k : A → M B) :
  GateOnly m → (∀ a, GateOnly (k a)) → GateOnly (bind m k).
Proof.
  intros Hm Hk S. destruct (Hm S) as (l1 & [a|e] & H1).
  - destruct (Hk a S) as (l2 & r2 & H2). exists (l1 ++ l2), r2.
    intros c Hc. unfold bind at 1. rewrite (H1 c Hc).
    unfold bind at 2. rewrite addPasses_app. unfold bind, lift.
    destruct (addPasses l1 c) as [[[] c1]|e] eqn:Hrun; [|reflexivity].
    rewrite (H2 c1) by (rewrite (addPasses_preserves_static _ _ _ Hrun); exact Hc).
    reflexivity.
  - exists l1, (Err e). intros c Hc. unfold bind at 1. rewrite (H1 c Hc).
    unfold bind, lift. destruct (addPasses l1 c) as [[[] c1]|e']; reflexivity.
Qed.

Lemma GateOnly_get {A} (k : TargetPassConfig → M A) :
  (∀ c, GateOnly (k c)) →
  (∀ c1 c2, static c1 = static c2 → k c1 = k c2) →
  GateOnly (bind get k).
Proof.
  intros Hk Hext [[im tm] dv].
  set (c0 := mkConfig [] None None true false tm im false dv true).
  destruct (Hk c0 (im, tm, dv)) as (l & r & H0). exists l, r.
  intros c Hc. unfold bind at 1, get.
  rewrite (Hext c c0) by exact Hc. apply H0. exact Hc.
Qed.

Lemma GateOnly_when (b : bool) (m : M unit) : GateOnly m → GateOnly (when b m).
Proof. destruct b; [trivial|]. intros _. apply GateOnly_ret. Qed.

Lemma GateOnly_addPass_FP (P : FunctionPass) : GateOnly (addPass_FP P).
Proof. destruct P; [apply GateOnly_addPass_P|apply GateOnly_fail]. Qed.

Ltac static_ext :=
  let c1 := fresh "c" in let c2 := fresh "c" in let Hs := fresh "Hs" in
  intros c1 c2 Hs; unfold static in Hs;
  let HI := fresh "HI" in let HT := fresh "HT" in let HD := fresh "HD" in
  injection Hs as HI HT HD;
  unfold getPassSubstitution, getOptimizeRegAlloc;
  rewrite ?HI, ?HT, ?HD; reflexivity.

Section GateOnlyStages.

Variable opts : Options.
Variable sopts : StageOptions.
Variable PR : PassRegistry.
Variable F : PassFactories.
Variable hooks : TargetHooks.
Variable shooks : StageHooks.
Variable getPassInfo : string → option PassKind.

Lemma GateOnly_addInserted (PassID : AnalysisID) (l : list (AnalysisID * AnalysisID)) :
  GateOnly (addInserted PR PassID l).
Proof.
  induction l as [|It l IH]; [apply GateOnly_ret|].
  cbn [addInserted]. apply GateOnly_bind; [|intros _; exact IH].
  case_decide; [|apply GateOnly_ret].
  destruct (It.2) as [ID|]; [|apply GateOnly_fail].
  destruct (createPass PR ID); [apply GateOnly_addPass_P|apply GateOnly_fail].
Qed.

Lemma GateOnly_addPass_ID (PassID : AnalysisID) : GateOnly (addPass_ID opts PR PassID).
Proof.
  unfold addPass_ID. apply GateOnly_get; [intros c|static_ext].
  cbn zeta. apply GateOnly_bind; [apply GateOnly_lift|intros [ID|]];
    [|apply GateOnly_ret].
  destruct (createPass PR ID); [|apply GateOnly_fail].
  apply GateOnly_bind; [apply GateOnly_addPass_P|intros _].
  apply GateOnly_get; [intros c'|static_ext].
  apply GateOnly_bind; [apply GateOnly_addInserted|intros _; apply GateOnly_ret].
Qed.

Lemma GateOnly_printAndVerify (Banner : string) : GateOnly (printAndVerify opts Banner).
Proof.
  unfold printAndVerify. apply GateOnly_get; [intros c|static_ext].
  apply GateOnly_bind; [|intros _];
    apply GateOnly_when, GateOnly_addPass_P.
Qed.

Ltac gate_only_step hyps :=
  lazymatch goal with
  | |- GateOnly (ret _) => apply GateOnly_ret
  | |- GateOnly (addPass_P _) => apply GateOnly_addPass_P
  | |- GateOnly (addPass_FP _) => apply GateOnly_addPass_FP
  | |- GateOnly (addPass_ID _ _ _) => apply GateOnly_addPass_ID
  | |- GateOnly (printAndVerify _ _) => apply GateOnly_printAndVerify
  | |- GateOnly (when _ _) => apply GateOnly_when
  | |- GateOnly (bind get _) => apply GateOnly_get; [intros ?|static_ext]
  | |- GateOnly (bind _ _) => apply GateOnly_bind; [|intros ?]
  | |- GateOnly (hook_addPreRewrite _) => apply hyps; repeat first [apply list_elem_of_here | apply list_elem_of_further]
  | |- GateOnly (hook_addFinalizeRegAlloc _) => apply hyps; repeat first [apply list_elem_of_here | apply list_elem_of_further]
  | |- GateOnly (hook_addPreRegAlloc _) => apply hyps; repeat first [apply list_elem_of_here | apply list_elem_of_further]
  | |- GateOnly (hook_addPostRegAlloc _) => apply hyps; repeat first [apply list_elem_of_here | apply list_elem_of_further]
  | |- GateOnly (hook_addPreSched2 _) => apply hyps; repeat first [apply list_elem_of_here | apply list_elem_of_further]
  | |- GateOnly (hook_addPreEmitPass _) => apply hyps; repeat first [apply list_elem_of_here | apply list_elem_of_further]
  end.

Ltac gate_only hyps := repeat gate_only_step hyps.

Lemma GateOnly_addMachineSSAOptimization : GateOnly (addMachineSSAOptimization opts PR).
Proof. unfold addMachineSSAOptimization. gate_only I. Qed.

Lemma GateOnly_addMachineLateOptimization : GateOnly (addMachineLateOptimization opts PR).
Proof. unfold addMachineLateOptimization. gate_only I. Qed.

Lemma GateOnly_addBlockPlacement : GateOnly (addBlockPlacement opts PR).
Proof.
  unfold addBlockPlacement. apply GateOnly_bind; [|intros ?].
  - destruct (negb (DisableBlockPlacement opts)); apply GateOnly_addPass_ID.
  - gate_only I.
Qed.

(** X15. The three optimization stages touch the configuration only
    through the gate: for given tables, target machine and options, each
    of them is the gate run over one fixed sequence of passes, whatever
    the gate state, the boundaries and the pass manager are. *)
Theorem optimization_stages_gate_only :
  GateOnly (addMachineSSAOptimization opts PR)
  ∧ GateOnly (addMachineLateOptimization opts PR)
  ∧ GateOnly (addBlockPlacement opts PR).
Proof.
  split; [exact GateOnly_addMachineSSAOptimization|].
  split; [exact GateOnly_addMachineLateOptimization|exact GateOnly_addBlockPlacement].
Qed.

Hypothesis hooks_gate_only :
  ∀ h, h ∈ [hook_addPreRewrite hooks; hook_addFinalizeRegAlloc hooks;
            hook_addPreRegAlloc shooks; hook_addPostRegAlloc shooks;
            hook_addPreSched2 shooks; hook_addPreEmitPass shooks] →
       GateOnly h.

Lemma GateOnly_addMachinePasses_regalloc (Default : option FunctionPassCtor) :
  GateOnly (addMachinePasses_regalloc opts PR hooks Default).
Proof.
  unfold addMachinePasses_regalloc. apply GateOnly_get; [intros c|static_ext].
  destruct (getOptimizeRegAlloc opts c);
    destruct (createRegAllocPass opts hooks _ Default) as [RA Default'];
    unfold addOptimizedRegAlloc, addFastRegAlloc;
    gate_only hooks_gate_only.
Qed.

(** The stage after the handling of the print-machineinstrs option. *)
Lemma addMachinePasses_split (Default : option FunctionPassCtor) :
  ∃ rest : M (option FunctionPassCtor),
    GateOnly rest
    ∧ ∀ c, addMachinePasses opts sopts PR F hooks shooks getPassInfo Default c
           = (addMachinePasses_printMachineInstrs sopts getPassInfo;; rest) c.
Proof.
  eexists. split; [|intros c; unfold addMachinePasses; reflexivity].
  gate_only hooks_gate_only.
  - destruct (bool_decide _); [apply GateOnly_addMachineSSAOptimization|].
    gate_only hooks_gate_only.
  - apply GateOnly_addMachinePasses_regalloc.
  - apply GateOnly_addMachineLateOptimization.
  - apply GateOnly_addBlockPlacement.
Qed.



Lemma printMachineInstrs_static (c1 c2 : TargetPassConfig) :
  static c1 = static c2 →
  (∃ e, addMachinePasses_printMachineInstrs sopts getPassInfo c1 = Err e
        ∧ addMachinePasses_printMachineInstrs sopts getPassInfo c2 = Err e)
  ∨ (∃ c1' c2', addMachinePasses_printMachineInstrs sopts getPassInfo c1 = Ok (tt, c1')
                ∧ addMachinePasses_printMachineInstrs sopts getPassInfo c2 = Ok (tt, c2')
                ∧ static c1' = static c2').
Proof.
  intros Hs. unfold static in Hs. injection Hs as HI HT HD.
  unfold addMachinePasses_printMachineInstrs, insertPass, modify, fail, ret, static.
  repeat case_match; try (left; eexists; split; reflexivity);
    right; eexists _, _; (split; [reflexivity|]); (split; [reflexivity|]);
    cbn; rewrite ?HI, ?HT, ?HD; reflexivity.
Qed.

(** X16. The machine-pass stage is oblivious of the window: two
    configurations that agree on tables, target machine and options, and
    differ in gate state, boundaries or pass manager, are shown one and the
    same sequence of passes, once the print-machineinstrs option has been
    handled; the boundaries only filter what is appended.  The target
    hooks are assumed to touch the configuration only through the gate. *)
Theorem addMachinePasses_gate_oblivious
    (Default : option FunctionPassCtor) (c1 c2 : TargetPassConfig) :
  static c1 = static c2 →
  ∃ l r,
    addMachinePasses opts sopts PR F hooks shooks getPassInfo Default c1
    = (addMachinePasses_printMachineInstrs sopts getPassInfo;; addPasses l;; lift r) c1
    ∧ addMachinePasses opts sopts PR F hooks shooks getPassInfo Default c2
      = (addMachinePasses_printMachineInstrs sopts getPassInfo;; addPasses l;; lift r) c2.
Proof.
  intros Hs. destruct (addMachinePasses_split Default) as (rest & Hrest & Heq).
  rewrite !Heq.
  destruct (printMachineInstrs_static c1 c2 Hs)
    as [(e & E1 & E2)|(c1' & c2' & E1 & E2 & Hs')].
  - exists [], (Err e). unfold bind. rewrite E1, E2. split; reflexivity.
  - destruct (Hrest (static c1')) as (l & r & Hl). exists l, r.
    pose proof (Hl c1' eq_refl) as Hl1.
    pose proof (Hl c2' (eq_sym Hs')) as Hl2.
    unfold bind in *. rewrite E1, E2, Hl1, Hl2. split; reflexivity.
Qed.

End GateOnlyStages.

(** * The stages in closed form *)

Lemma presents_addPass_P (S : PassConfigImpl * TargetMachine * bool) (P : Pass) :
  presents S (addPass_P P) [P] (Ok tt).
Proof.
  intros c _. cbn [addPasses]. unfold bind, lift, ret.
  destruct (addPass_P P c) as [[[] c1]|e]; reflexivity.
Qed.

Lemma presents_ret {A} (S : PassConfigImpl * TargetMachine * bool) (a : A) :
  presents S (ret a) [] (Ok a).
Proof. intros c _. reflexivity. Qed.

Lemma presents_bind {A B} (S : PassConfigImpl * TargetMachine * bool)
    (m : M A) (k : A → M B) (a : A) (l1 l2 : list Pass) (r : result B) :
  presents S m l1 (Ok a) → presents S (k a) l2 r →
  presents S (bind m k) (l1 ++ l2) r.
Proof.
  intros H1 H2 c Hc. unfold bind at 1. rewrite (H1 c Hc).
  unfold bind at 2. rewrite addPasses_app. unfold bind, lift.
  destruct (addPasses l1 c) as [[[] c1]|e] eqn:Hrun; [|reflexivity].
  rewrite (H2 c1) by (rewrite (addPasses_preserves_static _ _ _ Hrun); exact Hc).
  reflexivity.
Qed.

Lemma presents_get {A} (S : PassConfigImpl * TargetMachine * bool)
    (k : TargetPassConfig → M A) (l : list Pass) (r : result A) :
  (∀ c, static c = S → presents S (k c) l r) → presents S (bind get k) l r.
Proof. intros Hk c Hc. unfold bind at 1, get. exact (Hk c Hc c Hc). Qed.

Lemma presents_when (S : PassConfigImpl * TargetMachine * bool)
    (b : bool) (m : M unit) (l : list Pass) :
  presents S m l (Ok tt) → presents S (when b m) (if b then l else []) (Ok tt).
Proof. destruct b; [trivial|]. intros _. apply presents_ret. Qed.

Lemma presents_run (m : M unit) (l : list Pass) (c : TargetPassConfig) :
  presents (static c) m l (Ok tt) → m c = addPasses l c.
Proof.
  intros H. rewrite (H c eq_refl). unfold bind, lift.
  destruct (addPasses l c) as [[[] c1]|e]; reflexivity.
Qed.

Lemma presents_eq {A} (S : PassConfigImpl * TargetMachine * bool)
    (m : M A) (l l' : list Pass) (r : result A) :
  presents S m l r → l = l' → presents S m l' r.
Proof. intros H <-. exact H. Qed.

Ltac present :=
  repeat lazymatch goal with
  | |- presents _ (ret _) _ _ => apply presents_ret
  | |- presents _ (addPass_P _) _ _ => apply presents_addPass_P
  | |- presents _ (when _ _) _ _ => apply presents_when
  | |- presents _ (bind get _) _ _ =>
      let c := fresh "c" in let Hc := fresh "Hc" in
      apply presents_get; intros c Hc;
      let HI := fresh "HI" in let HT := fresh "HT" in let HD := fresh "HD" in
      pose proof Hc as HD; unfold static in HD; injection HD as HI HT HD;
      rewrite ?HT, ?HD
  | |- presents _ (bind _ _) _ _ => eapply presents_bind
  end.

(** X17. The IR stages show a fixed sequence of passes to the gate, on any
    configuration.  For [addIRPasses]: the two alias analyses, the verifier
    unless verification is disabled, loop strength reduction only when
    optimizing and not disabled (its printer only with it), then GC
    lowering and unreachable-block elimination.  For the exception stage:
    the SjLj model is the Dwarf lowering preceded by the SjLj preparation,
    and the model None lowers invokes and removes unreachable blocks. *)
Theorem IR_stages_candidates
    (sopts : StageOptions) (F : PassFactories) (EH : ExceptionsType)
    (c : TargetPassConfig) :
  addIRPasses sopts F c
  = addPasses (IRPasses sopts F (getOptLevel (TM c)) (DisableVerify c)) c
  ∧ addPassesToHandleExceptions F EH c = addPasses (exceptionPasses F EH) c.
Proof.
  split; apply presents_run.
  - unfold addIRPasses, IRPasses. eapply presents_eq; [present|].
    destruct (DisableVerify c), (bool_decide (getOptLevel (TM c) ≠ OptNone)),
      (DisableLSR sopts), (PrintLSR sopts); reflexivity.
  - unfold addPassesToHandleExceptions, exceptionPasses.
    destruct EH; (eapply presents_eq; [present|reflexivity]).
Qed.

(** X18. [addISelPrepare] on any configuration: code-generation preparation
    only when optimizing and not disabled, stack protection, whatever the
    pre-selection hook shows to the gate, the optional printer, and the
    verifier unless verification is disabled.  The value that the hook
    returns is ignored. *)
Theorem addISelPrepare_candidates
    (sopts : StageOptions) (F : PassFactories) (shooks : StageHooks)
    (c : TargetPassConfig) (hookPasses : list Pass) (b : bool) :
  presents (static c) (hook_addPreISel shooks) hookPasses (Ok b) →
  addISelPrepare sopts F shooks c
  = addPasses (ISelPreparePasses sopts F (getOptLevel (TM c)) (DisableVerify c)
                 hookPasses) c.
Proof.
  intros Hhook. apply presents_run.
  unfold addISelPrepare, ISelPreparePasses. eapply presents_eq.
  - present. exact Hhook.
  - destruct (DisableVerify c), (bool_decide (getOptLevel (TM c) ≠ OptNone)),
      (DisableCGP sopts), (PrintISelInput sopts); cbn;
      rewrite ?app_nil_r; reflexivity.
Qed.

Lemma addISelPrepare_candidates_witness :
  let c := constructed (mkTM OptDefault false) [] in
  let F := someFactories in
  addISelPrepare defaultStageOptions F emptyStageHooks c
  = addPasses (ISelPreparePasses defaultStageOptions F (getOptLevel (TM c))
                 (DisableVerify c) []) c.
Proof.
  intros c F.
  apply (addISelPrepare_candidates defaultStageOptions F emptyStageHooks c [] false).
  apply presents_ret.
Defined.

(** X19. [setOpt] is refused on an initialised configuration; before that
    it sets the option, and the stages that follow see it: after disabling
    verification, [addIRPasses] shows the gate its passes without the
    verifier. *)
Theorem setOpt_DisableVerify
    (sopts : StageOptions) (F : PassFactories) (c : TargetPassConfig) (Val : bool) :
  (Initialized c = true →
   setOpt set_DisableVerify Val c = Err (AssertionFailed "PassConfig is immutable"))
  ∧ (Initialized c = false →
     (setOpt set_DisableVerify Val;; addIRPasses sopts F) c
     = addPasses (IRPasses sopts F (getOptLevel (TM c)) Val) (set_DisableVerify Val c)).
Proof.
  unfold setOpt, bind at 1, get. split; intros Hi.
  - unfold bind, get. rewrite Hi. reflexivity.
  - unfold bind at 2. unfold bind at 1, get. rewrite Hi. unfold modify.
    apply presents_run. unfold addIRPasses, IRPasses. eapply presents_eq; [present|].
    cbn. destruct Val, (bool_decide (getOptLevel (TM c) ≠ OptNone)),
      (DisableLSR sopts), (PrintLSR sopts); reflexivity.
Qed.

(** * The machine stages of a fresh configuration *)

Lemma appends_get (tm : TargetMachine) {A} (k : TargetPassConfig → M A)
    (a : A) (l : list Pass) :
  (∀ c, TM c = tm → appends tm (k c) a l) → appends tm (bind get k) a l.
Proof.
  intros Hk c Hc. unfold bind at 1, get.
  apply Hk; [|exact Hc]. destruct Hc as (_ & _ & _ & _ & Htm & _). exact Htm.
Qed.

Lemma appends_run (tm : TargetMachine) {A} (m : M A) (a : A) (l pm : list Pass) :
  appends tm m a l →
  ∃ c', m (constructed tm pm) = Ok (a, c') ∧ PM c' = pm ++ l.
Proof.
  intros Hm. destruct (Hm (constructed tm pm)) as (c' & Hrun & Hpm & _).
  - repeat split.
  - exists c'. done.
Qed.

Section FreshStages.

Variable opts : Options.
Variable sopts : StageOptions.
Variable PR : PassRegistry.
Variable F : PassFactories.
Variable tm : TargetMachine.
Variable getPassInfo : string → option PassKind.
Hypothesis PR_complete : registryComplete PR.

Ltac has_factory :=
  intros ? ?; unfold applyDisable in *; repeat case_match; simplify_eq;
  apply PR_complete; discriminate.

Ltac fresh_step r :=
  eapply appends_bind;
  [ apply (appends_addPass_ID opts PR tm _ r); [reflexivity|has_factory] | ].

Ltac fresh_last r :=
  apply (appends_addPass_ID opts PR tm _ r); [reflexivity|has_factory].

Ltac fresh_print :=
  eapply appends_bind; [apply appends_printAndVerify|].

Ltac fresh_print_if :=
  eapply appends_bind; [apply appends_when, appends_printAndVerify|].

Lemma appends_addMachineLateOptimization :
  appends tm (addMachineLateOptimization opts PR) tt (lateOptimizationPath opts tm).
Proof.
  unfold addMachineLateOptimization, lateOptimizationPath. eapply appends_eq.
  - fresh_step (applyDisable (Some BranchFolderPassID) (DisableBranchFold opts)).
    fresh_print_if.
    fresh_step (applyDisable (Some TailDuplicateID) (DisableTailDuplicate opts)).
    fresh_print_if.
    fresh_step (applyDisable (Some MachineCopyPropagationID) (DisableCopyProp opts)).
    apply appends_when, appends_printAndVerify.
  - destruct (DisableBranchFold opts), (DisableTailDuplicate opts),
      (DisableCopyProp opts); cbn; rewrite ?app_nil_r; reflexivity.
Qed.

Lemma appends_addBlockPlacement :
  appends tm (addBlockPlacement opts PR) tt (blockPlacementPath opts tm).
Proof.
  unfold addBlockPlacement, blockPlacementPath.
  destruct (DisableBlockPlacement opts); cbn [negb].
  - eapply appends_eq.
    + fresh_step (applyDisable (Some CodePlacementOptID) (DisableCodePlace opts)).
      apply appends_when.
      eapply appends_bind; [|apply appends_printAndVerify].
      apply appends_when.
      fresh_step (Some MachineBlockPlacementStatsID). apply appends_ret.
    + destruct (DisableCodePlace opts), (EnableBlockPlacementStats opts);
        reflexivity.
  - eapply appends_eq.
    + fresh_step (applyDisable (Some MachineBlockPlacementID) (DisableCodePlace opts)).
      apply appends_when.
      eapply appends_bind; [|apply appends_printAndVerify].
      apply appends_when.
      fresh_step (Some MachineBlockPlacementStatsID). apply appends_ret.
    + destruct (DisableCodePlace opts), (EnableBlockPlacementStats opts);
        reflexivity.
Qed.

Lemma appends_addMachineSSAOptimization :
  appends tm (addMachineSSAOptimization opts PR) tt (ssaOptimizationPath opts tm).
Proof.
  unfold addMachineSSAOptimization, ssaOptimizationPath. eapply appends_eq.
  - fresh_step (applyDisable (Some TailDuplicateID) (DisableEarlyTailDup opts)).
    fresh_print_if.
    fresh_step (Some OptimizePHIsID).
    fresh_step (Some StackColoringID).
    fresh_step (Some LocalStackSlotAllocationID).
    fresh_step (applyDisable (Some DeadMachineInstructionElimID)
                  (DisableMachineDCE opts)).
    fresh_print.
    fresh_step (applyDisable (@None PassKind) (negb (EnableEarlyIfConversion opts))).
    fresh_step (applyDisable (Some MachineLICMID) (DisableMachineLICM opts)).
    fresh_step (applyDisable (Some MachineCSEID) (DisableMachineCSE opts)).
    fresh_step (applyDisable (Some MachineSinkingID) (DisableMachineSink opts)).
    fresh_print.
    fresh_step (Some PeepholeOptimizerID).
    apply appends_printAndVerify.
  - destruct (DisableEarlyTailDup opts), (DisableMachineDCE opts),
      (EnableEarlyIfConversion opts), (DisableMachineLICM opts),
      (DisableMachineCSE opts), (DisableMachineSink opts);
      cbn; rewrite ?app_nil_r; reflexivity.
Qed.

(** X20. Late machine optimization on a fresh configuration: branch
    folding, tail duplication and copy propagation, in this order, each
    suppressed by its own disable option alone, and each followed by the
    print and verify instrumentation only when it was scheduled. *)
Theorem late_optimization_path (pm : list Pass) :
  new_TargetPassConfig tm pm = Ok (constructed tm pm)
  ∧ ∃ c', addMachineLateOptimization opts PR (constructed tm pm) = Ok (tt, c')
          ∧ PM c' = pm ++ lateOptimizationPath opts tm.
Proof.
  split; [reflexivity|].
  exact (appends_run tm _ tt _ pm appends_addMachineLateOptimization).
Qed.

(** X21. Block placement on a fresh configuration schedules at most one
    placement pass: the probability-driven one, or the old one when block
    placement is disabled, and none at all when code placement is
    disabled, since both hang on that option.  The statistics pass and
    the instrumentation follow only a placement pass that was scheduled. *)
Theorem block_placement_path (pm : list Pass) :
  new_TargetPassConfig tm pm = Ok (constructed tm pm)
  ∧ ∃ c', addBlockPlacement opts PR (constructed tm pm) = Ok (tt, c')
          ∧ PM c' = pm ++ blockPlacementPath opts tm.
Proof.
  split; [reflexivity|].
  exact (appends_run tm _ tt _ pm appends_addBlockPlacement).
Qed.

(** X22. SSA-form machine optimization on a fresh configuration: the early
    tail duplication is the tail-duplication pass under its own disable
    option; PHI optimization, stack coloring, local stack-slot allocation
    and the peephole optimizer are always scheduled; dead-instruction
    elimination, LICM, CSE and sinking each obey their disable option; the
    early if-converter is never scheduled, whatever its option. *)
Theorem ssa_optimization_path (pm : list Pass) :
  new_TargetPassConfig tm pm = Ok (constructed tm pm)
  ∧ ∃ c', addMachineSSAOptimization opts PR (constructed tm pm) = Ok (tt, c')
          ∧ PM c' = pm ++ ssaOptimizationPath opts tm.
Proof.
  split; [reflexivity|].
  exact (appends_run tm _ tt _ pm appends_addMachineSSAOptimization).
Qed.

Lemma appends_addMachinePasses_regalloc (Default : option FunctionPassCtor) :
  let Optimized := getOptimizeRegAlloc opts (constructed tm []) in
  let sel := createRegAllocPass opts defaultHooks Optimized Default in
  ∃ RA, sel.1 = Some RA
        ∧ appends tm (addMachinePasses_regalloc opts PR defaultHooks Default) sel.2
            (if Optimized then optimizedPath opts tm RA else fastPath opts tm RA).
Proof.
  intros Optimized sel.
  destruct (createRegAllocPass_default opts Optimized Default) as (RA & Hsel & _).
  exists RA. split; [exact Hsel|].
  unfold addMachinePasses_regalloc. apply appends_get. intros c Htm.
  replace (getOptimizeRegAlloc opts c) with Optimized
    by (unfold Optimized, getOptimizeRegAlloc; rewrite Htm; reflexivity).
  subst sel. destruct Optimized;
    destruct (createRegAllocPass opts defaultHooks _ Default) as [RA' D'];
    cbn in Hsel; subst RA'; cbn [snd].
  - eapply appends_eq.
    + eapply appends_bind;
        [apply (appends_addOptimizedRegAlloc opts PR tm PR_complete)|apply appends_ret].
    + apply app_nil_r.
  - eapply appends_eq.
    + eapply appends_bind;
        [apply (appends_addFastRegAlloc opts PR tm PR_complete)|apply appends_ret].
    + apply app_nil_r.
Qed.

Hypothesis print_unspecified : PrintMachineInstrs sopts = "option-unspecified".

Lemma appends_addMachinePasses (Default : option FunctionPassCtor) :
  let Optimized := getOptimizeRegAlloc opts (constructed tm []) in
  let sel := createRegAllocPass opts defaultHooks Optimized Default in
  ∃ RA, sel.1 = Some RA
        ∧ appends tm
            (addMachinePasses opts sopts PR F defaultHooks emptyStageHooks
               getPassInfo Default)
            sel.2 (machinePassesPath opts sopts F tm RA).
Proof.
  intros Optimized sel.
  destruct (appends_addMachinePasses_regalloc Default) as (RA & Hsel & Hra).
  exists RA. split; [exact Hsel|].
  unfold addMachinePasses, addMachinePasses_printMachineInstrs, machinePassesPath.
  rewrite print_unspecified. cbn [String.eqb Ascii.eqb Bool.eqb negb].
  cbn zeta. fold Optimized.
  destruct (bool_decide (getOptLevel tm ≠ OptNone)) eqn:Hopt.
  - eapply appends_eq.
    + eapply appends_bind; [apply appends_ret|].
      fresh_print.
      fresh_step (Some ExpandISelPseudosID). fresh_print_if.
      apply appends_get; intros ? Htm; rewrite Htm, Hopt; clear Htm; cbn iota.
      eapply appends_bind.
      {
        apply appends_addMachineSSAOptimization. }
      eapply appends_bind; [apply (appends_ret tm false)|].
      fresh_print_if.
      eapply appends_bind; [exact Hra|].
      eapply appends_bind; [apply (appends_ret tm false)|].
      fresh_print_if.
      fresh_step (Some PrologEpilogCodeInserterID). fresh_print.
      apply appends_get; intros ? Htm; rewrite Htm, Hopt; clear Htm; cbn iota.
      eapply appends_bind.
      {
        apply appends_when, appends_addMachineLateOptimization. }
      fresh_step (Some ExpandPostRAPseudosID). fresh_print.
      eapply appends_bind; [apply (appends_ret tm false)|].
      fresh_print_if.
      apply appends_get; intros ? Htm; rewrite Htm, Hopt; clear Htm; cbn iota.
      eapply appends_bind.
      {
        apply appends_when.
        fresh_step (applyDisable (Some PostRASchedulerID) (DisablePostRA opts)).
        apply appends_printAndVerify. }
      fresh_step (Some GCMachineCodeAnalysisID).
      eapply appends_bind; [apply appends_when, appends_addPass_P|].
      apply appends_get; intros ? Htm; rewrite Htm, Hopt; clear Htm; cbn iota.
      eapply appends_bind.
      {
        apply appends_when, appends_addBlockPlacement. }
      eapply appends_bind; [apply (appends_ret tm false)|].
      eapply appends_bind;
        [apply appends_when, appends_printAndVerify|apply appends_ret].
    + destruct (DisablePostRA opts), (PrintGCInfo sopts); cbn;
        rewrite ?app_nil_r, <- ?app_assoc; reflexivity.
  - eapply appends_eq.
    + eapply appends_bind; [apply appends_ret|].
      fresh_print.
      fresh_step (Some ExpandISelPseudosID). fresh_print_if.
      apply appends_get; intros ? Htm; rewrite Htm, Hopt; clear Htm; cbn iota.
      eapply appends_bind.
      {
        fresh_step (Some LocalStackSlotAllocationID). apply appends_ret. }
      eapply appends_bind; [apply (appends_ret tm false)|].
      fresh_print_if.
      eapply appends_bind; [exact Hra|].
      eapply appends_bind; [apply (appends_ret tm false)|].
      fresh_print_if.
      fresh_step (Some PrologEpilogCodeInserterID). fresh_print.
      apply appends_get; intros ? Htm; rewrite Htm, Hopt; clear Htm; cbn iota.
      eapply appends_bind.
      {
        apply appends_when, appends_addMachineLateOptimization. }
      fresh_step (Some ExpandPostRAPseudosID). fresh_print.
      eapply appends_bind; [apply (appends_ret tm false)|].
      fresh_print_if.
      apply appends_get; intros ? Htm; rewrite Htm, Hopt; clear Htm; cbn iota.
      eapply appends_bind.
      {
        apply appends_when.
        fresh_step (applyDisable (Some PostRASchedulerID) (DisablePostRA opts)).
        apply appends_printAndVerify. }
      fresh_step (Some GCMachineCodeAnalysisID).
      eapply appends_bind; [apply appends_when, appends_addPass_P|].
      apply appends_get; intros ? Htm; rewrite Htm, Hopt; clear Htm; cbn iota.
      eapply appends_bind.
      {
        apply appends_when, appends_addBlockPlacement. }
      eapply appends_bind; [apply (appends_ret tm false)|].
      eapply appends_bind;
        [apply appends_when, appends_printAndVerify|apply appends_ret].
    + destruct (PrintGCInfo sopts); cbn;
        rewrite ?app_nil_r, <- ?app_assoc; reflexivity.
Qed.

(** X23. The machine passes of a fresh configuration, end to end, with no
    pass named for printing, the empty target hooks and a registry that
    has every real pass: the stage never fails, leaves the allocator
    default as the allocator selection set it, and appends exactly the
    listed sequence, in which the optimization stages, the second
    scheduler and block placement appear only above level None, while
    pseudo-instruction expansion, register allocation, prolog/epilog
    insertion and the GC analysis are always there. *)
Theorem machine_passes_path (pm : list Pass) (Default : option FunctionPassCtor) :
  let Optimized := getOptimizeRegAlloc opts (constructed tm []) in
  let sel := createRegAllocPass opts defaultHooks Optimized Default in
  new_TargetPassConfig tm pm = Ok (constructed tm pm)
  ∧ ∃ RA c',
      sel.1 = Some RA
      ∧ addMachinePasses opts sopts PR F defaultHooks emptyStageHooks getPassInfo
          Default (constructed tm pm) = Ok (sel.2, c')
      ∧ PM c' = pm ++ machinePassesPath opts sopts F tm RA.
Proof.
  intros Optimized sel. split; [reflexivity|].
  destruct (appends_addMachinePasses Default) as (RA & Hsel & Hrun).
  destruct (appends_run tm _ _ _ pm Hrun) as (c' & Hc' & Hpm).
  exists RA, c'. done.
Qed.

End FreshStages.

(** * The print-machineinstrs option *)

(** X24. Naming a pass for printing inserts the machine-code printer after
    it: with the option set to the name of a registered pass other than
    the printer, handling the option and then scheduling that pass on an
    open gate appends the pass, as resolved, and right after it the
    printer pass. *)
Theorem printMachineInstrs_named
    (opts : Options) (sopts : StageOptions) (PR : PassRegistry)
    (getPassInfo : string → option PassKind) (c : TargetPassConfig)
    (TID IID ID : PassKind) :
  PrintMachineInstrs sopts ≠ "" →
  PrintMachineInstrs sopts ≠ "option-unspecified" →
  getPassInfo (PrintMachineInstrs sopts) = Some TID →
  getPassInfo "print-machineinstrs" = Some IID →
  TID ≠ IID →
  Initialized c = false → Started c = true → Stopped c = false →
  StopAfter c = None →
  insertedAfter (Some TID) (InsertedPasses (Impl c)) = [] →
  overridePass opts (Some TID) (getPassSubstitution c (Some TID)) = Ok (Some ID) →
  PR ID = true → PR IID = true →
  ∃ c', (addMachinePasses_printMachineInstrs sopts getPassInfo;;
         addPass_ID opts PR (Some TID)) c = Ok (Some ID, c')
        ∧ PM c' = PM c ++ [passOf ID; passOf IID].
Proof.
  intros Hne1 Hne2 HT HI Hdiff Hi Hst Hsp Hso Hnone Hres HregT HregI.
  unfold bind at 1, addMachinePasses_printMachineInstrs.
  rewrite (proj2 (String.eqb_neq _ _) Hne1), (proj2 (String.eqb_neq _ _) Hne2).
  cbn [negb]. rewrite HT, HI. unfold insertPass.
  rewrite decide_False by congruence. unfold modify.
  set (c1 := set_Impl _ c).
  assert (Hins : insertedAfter (Some TID) (InsertedPasses (Impl c1)) = Some <$> [IID]).
  { subst c1. cbn [set_Impl Impl InsertedPasses].
    rewrite insertedAfter_app, Hnone. unfold insertedAfter.
    rewrite filter_cons, decide_True by reflexivity. reflexivity. }
  assert (Hres1 : overridePass opts (Some TID) (getPassSubstitution c1 (Some TID))
                  = Ok (Some ID)) by exact Hres.
  rewrite (addPass_ID_resolved _ _ _ _ _ Hres1 HregT).
  destruct (addPasses_open [passOf ID; passOf IID] c1 Hi Hst Hsp Hso)
    as (c' & Hrun & Hpm & _).
  exists c'. split; [|exact Hpm].
  cbn [addPasses] in Hrun. unfold bind in *.
  destruct (addPass_P (passOf ID) c1) as [[[] c2]|e]; [|discriminate].
  rewrite (addInserted_addPasses PR (Some TID) _ [IID] c2 Hins)
    by (repeat constructor; exact HregI).
  cbn [fmap list_fmap addPasses]. unfold bind. rewrite Hrun. reflexivity.
Qed.

Lemma printMachineInstrs_named_witness :
  let sopts := mkStageOptions false false false false false "phi-node-elimination" in
  let c := constructed (mkTM OptDefault false) [] in
  ∃ c', (addMachinePasses_printMachineInstrs sopts someNames;;
         addPass_ID defaultOptions codegenRegistry (Some PHIEliminationID)) c
        = Ok (Some PHIEliminationID, c')
        ∧ PM c' = PM c ++ [passOf PHIEliminationID; passOf MachineFunctionPrinterPassID].
Proof.
  intros sopts c.
  apply (printMachineInstrs_named defaultOptions sopts codegenRegistry someNames c
           PHIEliminationID MachineFunctionPrinterPassID PHIEliminationID);
    try reflexivity; discriminate.
Defined.

(** X25. The failures of the print-machineinstrs option: a name that is
    not registered, or a missing printer, is an assertion failure, and so
    is asking to print after the printer itself, which would insert a pass
    after itself.  Left unspecified, the option changes nothing. *)
Theorem printMachineInstrs_failures
    (sopts : StageOptions) (getPassInfo : string → option PassKind)
    (c : TargetPassConfig) :
  (PrintMachineInstrs sopts = "option-unspecified" →
   addMachinePasses_printMachineInstrs sopts getPassInfo c = Ok (tt, c))
  ∧ (PrintMachineInstrs sopts ≠ "" →
     PrintMachineInstrs sopts ≠ "option-unspecified" →
     (getPassInfo (PrintMachineInstrs sopts) = None
      ∨ getPassInfo "print-machineinstrs" = None →
      addMachinePasses_printMachineInstrs sopts getPassInfo c
      = Err (AssertionFailed "Pass ID not registered!"))
     ∧ (∀ ID, getPassInfo (PrintMachineInstrs sopts) = Some ID →
              getPassInfo "print-machineinstrs" = Some ID →
              addMachinePasses_printMachineInstrs sopts getPassInfo c
              = Err (AssertionFailed "Insert a pass after itself!"))).
Proof.
  unfold addMachinePasses_printMachineInstrs. split.
  - intros ->. reflexivity.
  - intros Hne1 Hne2.
    rewrite (proj2 (String.eqb_neq _ _) Hne1), (proj2 (String.eqb_neq _ _) Hne2).
    cbn [negb]. split.
    + intros [-> | ->]; [reflexivity|]. case_match; reflexivity.
    + intros ID -> ->. unfold insertPass. rewrite decide_True by reflexivity.
      reflexivity.
Qed.

(** * Instances *)

Lemma default_hooks_gate_only :
  ∀ h, h ∈ [hook_addPreRewrite defaultHooks; hook_addFinalizeRegAlloc defaultHooks;
            hook_addPreRegAlloc emptyStageHooks; hook_addPostRegAlloc emptyStageHooks;
            hook_addPreSched2 emptyStageHooks; hook_addPreEmitPass emptyStageHooks] →
       GateOnly h.
Proof.
  intros h Hh.
  repeat (apply elem_of_cons in Hh as [->|Hh]; [apply GateOnly_ret|]).
  apply elem_of_nil in Hh. contradiction.
Qed.

Lemma addMachinePasses_gate_oblivious_witness :
  let tm := mkTM OptDefault false in
  let c1 := constructed tm [] in
  let c2 := mkConfig [passOf (OtherPassID 1)] (Some PHIEliminationID)
              (Some VirtRegRewriterID) false false tm (Impl c1) false false true in
  ∃ l r,
    addMachinePasses defaultOptions defaultStageOptions codegenRegistry someFactories
      defaultHooks emptyStageHooks someNames None c1
    = (addMachinePasses_printMachineInstrs defaultStageOptions someNames;;
       addPasses l;; lift r) c1
    ∧ addMachinePasses defaultOptions defaultStageOptions codegenRegistry someFactories
        defaultHooks emptyStageHooks someNames None c2
      = (addMachinePasses_printMachineInstrs defaultStageOptions someNames;;
         addPasses l;; lift r) c2.
Proof.
  intros tm c1 c2.
  apply (addMachinePasses_gate_oblivious defaultOptions defaultStageOptions
           codegenRegistry someFactories defaultHooks emptyStageHooks someNames
           default_hooks_gate_only None c1 c2).
  reflexivity.
Defined.

Lemma late_optimization_path_witness :
  let tm := mkTM OptDefault false in
  new_TargetPassConfig tm [] = Ok (constructed tm [])
  ∧ ∃ c', addMachineLateOptimization defaultOptions codegenRegistry (constructed tm [])
          = Ok (tt, c')
          ∧ PM c' = [] ++ lateOptimizationPath defaultOptions tm.
Proof.
  intros tm.
  exact (late_optimization_path defaultOptions codegenRegistry tm
           codegenRegistry_complete []).
Defined.

Lemma block_placement_path_witness :
  let tm := mkTM OptDefault false in
  new_TargetPassConfig tm [] = Ok (constructed tm [])
  ∧ ∃ c', addBlockPlacement defaultOptions codegenRegistry (constructed tm [])
          = Ok (tt, c')
          ∧ PM c' = [] ++ blockPlacementPath defaultOptions tm.
Proof.
  intros tm.
  exact (block_placement_path defaultOptions codegenRegistry tm
           codegenRegistry_complete []).
Defined.

Lemma ssa_optimization_path_witness :
  let tm := mkTM OptDefault false in
  new_TargetPassConfig tm [] = Ok (constructed tm [])
  ∧ ∃ c', addMachineSSAOptimization defaultOptions codegenRegistry (constructed tm [])
          = Ok (tt, c')
          ∧ PM c' = [] ++ ssaOptimizationPath defaultOptions tm.
Proof.
  intros tm.
  exact (ssa_optimization_path defaultOptions codegenRegistry tm
           codegenRegistry_complete []).
Defined.

Lemma machine_passes_path_witness :
  let tm := mkTM OptDefault false in
  let Optimized := getOptimizeRegAlloc defaultOptions (constructed tm []) in
  let sel := createRegAllocPass defaultOptions defaultHooks Optimized None in
  new_TargetPassConfig tm [] = Ok (constructed tm [])
  ∧ ∃ RA c',
      sel.1 = Some RA
      ∧ addMachinePasses defaultOptions defaultStageOptions codegenRegistry
          someFactories defaultHooks emptyStageHooks someNames None (constructed tm [])
        = Ok (sel.2, c')
      ∧ PM c' = [] ++ machinePassesPath defaultOptions defaultStageOptions
                        someFactories tm RA.
Proof.
  intros tm Optimized sel.
  exact (machine_passes_path defaultOptions defaultStageOptions codegenRegistry
           someFactories tm someNames codegenRegistry_complete eq_refl [] None).
Defined.

(** The machine passes at level Default and at level None, with no option
    given: the identities scheduled, in order. *)
Example machine_passes_default_level :
  scheduledPasses
    (addMachinePasses defaultOptions defaultStageOptions codegenRegistry someFactories
       defaultHooks emptyStageHooks someNames None
       (constructed (mkTM OptDefault false) []))
  = Ok [ExpandISelPseudosID; TailDuplicateID; OptimizePHIsID; StackColoringID;
        LocalStackSlotAllocationID; DeadMachineInstructionElimID; MachineLICMID;
        MachineCSEID; MachineSinkingID; PeepholeOptimizerID;
        ProcessImplicitDefsID; LiveVariablesID; MachineLoopInfoID;
        PHIEliminationID; TwoAddressInstructionPassID; RegisterCoalescerID;
        RAGreedyID; VirtRegRewriterID; StackSlotColoringID; MachineLICMID;
        PrologEpilogCodeInserterID; BranchFolderPassID; TailDuplicateID;
        MachineCopyPropagationID; ExpandPostRAPseudosID; PostRASchedulerID;
        GCMachineCodeAnalysisID; MachineBlockPlacementID].
Proof. vm_compute. reflexivity. Qed.

Example machine_passes_level_none :
  scheduledPasses
    (addMachinePasses defaultOptions defaultStageOptions codegenRegistry someFactories
       defaultHooks emptyStageHooks someNames None
       (constructed (mkTM OptNone false) []))
  = Ok [ExpandISelPseudosID; LocalStackSlotAllocationID; PHIEliminationID;
        TwoAddressInstructionPassID; RAFastID; PrologEpilogCodeInserterID;
        ExpandPostRAPseudosID; GCMachineCodeAnalysisID].
Proof. vm_compute. reflexivity. Qed.
